(** * The reminder queue of telegram-bot-reminder-api.ai

    A shallow embedding of [db/database.go] (the SQLite-backed store) and of
    the delivery loop [processQueue] of [main.go], with the properties of
    the persistent delivery queue stated and proved over it.

    Conventions of the embedding:
    - SQLite integers and Go [int]/[int64] values are [Z]; every quantity
      here is a number of seconds, a row id or a retry counter, and stays
      far inside the 64-bit range;
    - [time.Time] is the number of Unix seconds it denotes ([time.Unix],
      [Time.Unix]);
    - [time.Now()] is an explicit argument [now] of the operations that read
      the clock;
    - a failure of [db.Prepare] or of [stmt.Exec]/[stmt.Query] is an explicit
      argument of type [Fault];
    - the [sync.RWMutex] makes every store operation atomic, so an operation
      is a function from the database before to the database after. *)

From Stdlib Require Import String ZArith List Bool Lia.
From Stdlib Require Import Sorting.Sorted Sorting.Permutation.
From Stdlib Require Import Ascii DecimalString DecimalZ DecimalPos.
Import ListNotations.

Local Open Scope string_scope.
Local Open Scope Z_scope.
Local Open Scope list_scope.

(** ** Go values *)

(** [time.Time], at the precision the store keeps: seconds since the epoch. *)
Record Time := time_Unix { Unix : Z }.

(** A Go slice is either [nil] or a (possibly empty) sequence. *)
Inductive slice (A : Type) : Type :=
| slice_nil
| slice_of (elems : list A).
Arguments slice_nil {A}.
Arguments slice_of {A} elems.

Definition elems {A} (s : slice A) : list A :=
  match s with
  | slice_nil => []
  | slice_of l => l
  end.

Definition len {A} (s : slice A) : Z := Z.of_nat (length (elems s)).

Definition is_nil {A} (s : slice A) : bool :=
  match s with
  | slice_nil => true
  | slice_of _ => false
  end.

(** The builtin [append(s, x)]: the result is never [nil]. *)
Definition append {A} (s : slice A) (x : A) : slice A := slice_of (elems s ++ [x]).

(** [type Log struct] *)
Record Log := mkLog {
  Type_ : string;
  Log_Message : string;
  Log_Time : Time
}.

(** [type QueueItem struct] *)
Record QueueItem := mkQueueItem {
  ID : Z;
  ChatID : Z;
  Message : string;
  EnqueuedOn : Time;
  FireOn : Time;
  DeliveredOn : Time;
  NumTries : Z
}.

Definition defaultMaxNumTries : Z := 10.

(** ** The SQLite side *)

(** A value held by a column. *)
Inductive sqlvalue :=
| Null
| Integer (n : Z)
| Text (s : string).

(** [ifnull(x, y)] *)
Definition ifnull (x : option Z) (y : Z) : Z :=
  match x with
  | Some v => v
  | None => y
  end.

(** Equality of two column values as a uniqueness check sees it: a [Null]
    is distinct from every value, itself included. *)
Definition sql_same (a b : sqlvalue) : bool :=
  match a, b with
  | Integer x, Integer y => x =? y
  | Text s, Text t => String.eqb s t
  | _, _ => false
  end.

(** A row of table [logs]. Column [type] is declared [text default null],
    and [saveLog], the only writer, always binds a Go string to it. *)
Record LogRow := mkLogRow {
  log_id : Z;
  log_type : string;
  log_message : string;
  log_time : Z
}.

(** A row of table [queue]. [delivered_on] is the one column that holds
    [Null]; [enqueued_on] and [num_tries] always take their defaults at
    insertion. *)
Record QueueRow := mkQueueRow {
  id : Z;
  chat_id : Z;
  message : string;
  enqueued_on : Z;
  fire_on : Z;
  delivered_on : option Z;
  num_tries : Z
}.

Inductive Column :=
| col_id | col_chat_id | col_message | col_enqueued_on
| col_fire_on | col_delivered_on | col_num_tries.

Definition column_value (c : Column) (r : QueueRow) : sqlvalue :=
  match c with
  | col_id => Integer (id r)
  | col_chat_id => Integer (chat_id r)
  | col_message => Text (message r)
  | col_enqueued_on => Integer (enqueued_on r)
  | col_fire_on => Integer (fire_on r)
  | col_delivered_on =>
      match delivered_on r with
      | Some t => Integer t
      | None => Null
      end
  | col_num_tries => Integer (num_tries r)
  end.

(** A key declared on the table: the primary key or an index. *)
Record Index := mkIndex {
  idx_name : string;
  idx_unique : bool;
  idx_columns : list Column
}.

(** The keys [OpenDb] declares on [queue]: [id integer primary key
    autoincrement], then five [create index] statements, none of them
    [create unique index]. *)
Definition queue_indexes : list Index :=
  [ mkIndex "primary key" true [col_id];
    mkIndex "idx_queue1" false [col_chat_id; col_delivered_on];
    mkIndex "idx_queue2" false [col_enqueued_on; col_delivered_on];
    mkIndex "idx_queue3" false [col_enqueued_on; col_delivered_on; col_num_tries];
    mkIndex "idx_queue4" false [col_chat_id; col_delivered_on; col_enqueued_on];
    mkIndex "idx_queue5" false
      [col_enqueued_on; col_delivered_on; col_num_tries; col_fire_on] ].

(** [new] collides with [old] on a key when the key is unique and both rows
    hold the same values in all its columns. *)
Definition collides_on (i : Index) (new old : QueueRow) : bool :=
  idx_unique i
  && forallb (fun c => sql_same (column_value c new) (column_value c old))
             (idx_columns i).

(** A uniqueness conflict of [new] with the rows already stored. *)
Definition conflicts (new : QueueRow) (rows : list QueueRow) : bool :=
  existsb (fun old => existsb (fun i => collides_on i new old) queue_indexes) rows.

(** The database file: the two tables, each with the counter that
    [autoincrement] keeps in [sqlite_sequence] (the largest row id ever
    given out). Rows are kept in rowid order. *)
Record Database := mkDatabase {
  logs : list LogRow;
  logs_seq : Z;
  queue : list QueueRow;
  queue_seq : Z
}.

(** [OpenDb] on a fresh file: [create table if not exists] twice. *)
Definition OpenDb : Database := mkDatabase [] 0 [] 0.

(** What can go wrong in one store call. *)
Inductive Fault :=
| NoFault
| PrepareFails   (* [d.db.Prepare] returns an error *)
| ExecFails.     (* [stmt.Exec] or [stmt.Query] returns an error *)

(** *** Statements *)

(** The rowid [autoincrement] gives to a new row of [queue]: one more than
    the largest rowid the table has ever held. *)
Definition next_rowid (d : Database) : Z :=
  Z.max (queue_seq d) (fold_right Z.max 0 (map id (queue d))) + 1.

(** [insert or ignore into queue(chat_id, message, fire_on) values(?, ?, ?)]:
    the new row takes the next rowid and the column defaults; it is dropped
    when it conflicts with a stored row. *)
Definition sql_insert_or_ignore_queue (now chatID : Z) (msg : string) (fireOn : Z)
    (d : Database) : Database :=
  let new := mkQueueRow (next_rowid d) chatID msg now fireOn None 0 in
  if conflicts new (queue d) then d
  else mkDatabase (logs d) (logs_seq d) (queue d ++ [new]) (next_rowid d).

(** [insert into logs(type, message) values(?, ?)] *)
Definition sql_insert_logs (now : Z) (typ msg : string) (d : Database) : Database :=
  mkDatabase (logs d ++ [mkLogRow (logs_seq d + 1) typ msg now]) (logs_seq d + 1)
             (queue d) (queue_seq d).

(** [update queue set ... where ...]: the new table and [RowsAffected]. *)
Definition sql_update (where_ : QueueRow -> bool) (set : QueueRow -> QueueRow)
    (rows : list QueueRow) : list QueueRow * Z :=
  (map (fun r => if where_ r then set r else r) rows,
   Z.of_nat (length (filter where_ rows))).

(** [delete from queue where ...]: the new table and [RowsAffected]. *)
Definition sql_delete (where_ : QueueRow -> bool) (rows : list QueueRow)
    : list QueueRow * Z :=
  (filter (fun r => negb (where_ r)) rows,
   Z.of_nat (length (filter where_ rows))).

(** [order by key desc]: an insertion sort; rows with equal keys stay in
    rowid order (SQLite leaves their order open, and no statement below
    depends on it). *)
Fixpoint insert_desc {A} (key : A -> Z) (x : A) (l : list A) : list A :=
  match l with
  | [] => [x]
  | y :: l' => if key y <? key x then x :: l else y :: insert_desc key x l'
  end.

Definition order_by_desc {A} (key : A -> Z) (l : list A) : list A :=
  fold_right (insert_desc key) [] l.

(** [limit n]: a negative [n] means no limit. *)
Definition sql_limit {A} (n : Z) (l : list A) : list A :=
  if n <? 0 then l else firstn (Z.to_nat n) l.

Definition with_queue (d : Database) (rows : list QueueRow) : Database :=
  mkDatabase (logs d) (logs_seq d) rows (queue_seq d).

(** [set num_tries = num_tries + 1] *)
Definition set_num_tries_plus_1 (r : QueueRow) : QueueRow :=
  mkQueueRow (id r) (chat_id r) (message r) (enqueued_on r) (fire_on r)
             (delivered_on r) (num_tries r + 1).

(** [set delivered_on = ?] *)
Definition set_delivered_on (t : Z) (r : QueueRow) : QueueRow :=
  mkQueueRow (id r) (chat_id r) (message r) (enqueued_on r) (fire_on r)
             (Some t) (num_tries r).

(** [where id = ? and chat_id = ?], bound to [(queueID, chatID)]. *)
Definition where_id_chat (queueID chatID : Z) (r : QueueRow) : bool :=
  (id r =? queueID) && (chat_id r =? chatID).

(** ** The operations of [db/database.go] *)

(** [func (d *Database) saveLog(typ, msg string)] *)
Definition saveLog (f : Fault) (now : Z) (typ msg : string) (d : Database) : Database :=
  match f with
  | NoFault => sql_insert_logs now typ msg d
  | PrepareFails | ExecFails => d
  end.

(** [func (d *Database) Log(msg string)] (the type [Log] has the name). *)
Definition Database_Log (f : Fault) (now : Z) (msg : string) := saveLog f now "log" msg.

(** [func (d *Database) LogError(msg string)] *)
Definition LogError (f : Fault) (now : Z) (msg : string) := saveLog f now "err" msg.

(** [func (d *Database) GetLogs(latestN int) []Log] *)
Definition GetLogs (f : Fault) (latestN : Z) (d : Database) : slice Log :=
  let logs0 := slice_of [] in
  match f with
  | PrepareFails | ExecFails => logs0
  | NoFault =>
      let rows := sql_limit latestN (order_by_desc log_id (logs d)) in
      fold_left
        (fun acc r => append acc (mkLog (log_type r) (log_message r) (time_Unix (log_time r))))
        rows logs0
  end.

(** [func (d *Database) Enqueue(chatID int64, message string, fireOn time.Time) bool] *)
Definition Enqueue (f : Fault) (now : Z) (chatID : Z) (msg : string) (fireOn : Time)
    (d : Database) : bool * Database :=
  match f with
  | PrepareFails | ExecFails => (false, d)
  | NoFault => (true, sql_insert_or_ignore_queue now chatID msg (Unix fireOn) d)
  end.

(** The loop over [rows.Next()] shared by the two listings: [rows.Scan]
    reads the six selected columns, and the struct literal sets six fields
    of the [QueueItem]; [NumTries] is not among them and keeps its zero
    value. *)
Definition scan_item (r : QueueRow) : QueueItem :=
  let deliveredOn := ifnull (delivered_on r) 0 in
  {| ID := id r;
     ChatID := chat_id r;
     Message := message r;
     EnqueuedOn := time_Unix (enqueued_on r);
     FireOn := time_Unix (fire_on r);
     DeliveredOn := time_Unix deliveredOn;
     NumTries := 0 |}.

Definition scan_rows (rows : list QueueRow) (queue0 : slice QueueItem) : slice QueueItem :=
  fold_left (fun acc r => append acc (scan_item r)) rows queue0.

(** [where delivered_on is null and num_tries < ? and fire_on <= ?] *)
Definition where_deliverable (maxNumTries now : Z) (r : QueueRow) : bool :=
  match delivered_on r with
  | None => (num_tries r <? maxNumTries) && (fire_on r <=? now)
  | Some _ => false
  end.

(** [where chat_id = ? and delivered_on is null] *)
Definition where_undelivered (chatID : Z) (r : QueueRow) : bool :=
  (chat_id r =? chatID)
  && match delivered_on r with
     | None => true
     | Some _ => false
     end.

(** [func (d *Database) DeliverableQueueItems(maxNumTries int) []QueueItem] *)
Definition DeliverableQueueItems (f : Fault) (now : Z) (maxNumTries : Z) (d : Database)
    : slice QueueItem :=
  let queue0 := slice_of [] in
  let maxNumTries := if maxNumTries <=? 0 then defaultMaxNumTries else maxNumTries in
  match f with
  | PrepareFails | ExecFails => queue0
  | NoFault =>
      scan_rows
        (order_by_desc enqueued_on (filter (where_deliverable maxNumTries now) (queue d)))
        queue0
  end.

(** [func (d *Database) UndeliveredQueueItems(chatID int64) []QueueItem] *)
Definition UndeliveredQueueItems (f : Fault) (chatID : Z) (d : Database)
    : slice QueueItem :=
  let queue0 := slice_of [] in
  match f with
  | PrepareFails | ExecFails => queue0
  | NoFault =>
      scan_rows
        (order_by_desc enqueued_on (filter (where_undelivered chatID) (queue d)))
        queue0
  end.

(** [func (d *Database) DeleteQueueItem(chatID, queueID int64) bool]: the
    result of [Exec] is discarded, only its error is looked at. *)
Definition DeleteQueueItem (f : Fault) (chatID queueID : Z) (d : Database)
    : bool * Database :=
  match f with
  | PrepareFails | ExecFails => (false, d)
  | NoFault =>
      let (rows, _) := sql_delete (where_id_chat queueID chatID) (queue d) in
      (true, with_queue d rows)
  end.

(** [func (d *Database) IncreaseNumTries(chatID, queueID int64) bool] *)
Definition IncreaseNumTries (f : Fault) (chatID queueID : Z) (d : Database)
    : bool * Database :=
  match f with
  | PrepareFails | ExecFails => (false, d)
  | NoFault =>
      let (rows, num) :=
        sql_update (where_id_chat queueID chatID)
          set_num_tries_plus_1
          (queue d) in
      (if num <=? 0 then false else true, with_queue d rows)
  end.

(** [func (d *Database) MarkQueueItemAsDelivered(chatID, queueID int64) bool] *)
Definition MarkQueueItemAsDelivered (f : Fault) (now : Z) (chatID queueID : Z)
    (d : Database) : bool * Database :=
  match f with
  | PrepareFails | ExecFails => (false, d)
  | NoFault =>
      let (rows, num) :=
        sql_update (where_id_chat queueID chatID)
          (set_delivered_on now)
          (queue d) in
      (if num <=? 0 then false else true, with_queue d rows)
  end.

(** ** Every store operation as one step *)

(** The mutating calls a client can make; the listings change nothing. *)
Inductive Op :=
| OpSaveLog (typ msg : string)
| OpEnqueue (chatID : Z) (msg : string) (fireOn : Time)
| OpDelete (chatID queueID : Z)
| OpIncrease (chatID queueID : Z)
| OpMark (chatID queueID : Z).

(** One call, made at clock reading [now] with storage outcome [f]: what it
    returns ([saveLog] returns nothing, given as [true]) and the database it
    leaves. *)
Definition apply_op (f : Fault) (now : Z) (o : Op) (d : Database) : bool * Database :=
  match o with
  | OpSaveLog typ msg => (true, saveLog f now typ msg d)
  | OpEnqueue chatID msg fireOn => Enqueue f now chatID msg fireOn d
  | OpDelete chatID queueID => DeleteQueueItem f chatID queueID d
  | OpIncrease chatID queueID => IncreaseNumTries f chatID queueID d
  | OpMark chatID queueID => MarkQueueItemAsDelivered f now chatID queueID d
  end.

(** A history of calls, oldest first. *)
Fixpoint run_ops (h : list (Fault * Z * Op)) (d : Database) : Database :=
  match h with
  | [] => d
  | (f, now, o) :: h' => run_ops h' (snd (apply_op f now o d))
  end.

(** The row stored under a rowid. *)
Definition row_of (i : Z) (d : Database) : option QueueRow :=
  find (fun r => id r =? i) (queue d).

(** Rowids are a primary key handed out by [autoincrement]: no two stored
    rows share one, and none exceeds the counter. *)
Definition wf (d : Database) : Prop :=
  NoDup (map id (queue d)) /\ Forall (fun r => id r <= queue_seq d) (queue d).

(** What a call makes of a stored row: [None] when it deletes it. *)
Definition row_after (f : Fault) (now : Z) (o : Op) (r : QueueRow) : option QueueRow :=
  match f, o with
  | NoFault, OpDelete chatID queueID =>
      if where_id_chat queueID chatID r then None else Some r
  | NoFault, OpIncrease chatID queueID =>
      Some (if where_id_chat queueID chatID r then set_num_tries_plus_1 r else r)
  | NoFault, OpMark chatID queueID =>
      Some (if where_id_chat queueID chatID r then set_delivered_on now r else r)
  | _, _ => Some r
  end.

(** The row a call adds, if it adds one. *)
Definition row_added (f : Fault) (now : Z) (o : Op) (d : Database) : option QueueRow :=
  match f, o with
  | NoFault, OpEnqueue chatID msg fireOn =>
      Some (mkQueueRow (next_rowid d) chatID msg now (Unix fireOn) None 0)
  | _, _ => None
  end.

(** [n] calls of the same operation in a row; the results, oldest first, and
    the final database. *)
Fixpoint repeat_op (n : nat) (op : Database -> bool * Database) (d : Database)
    : list bool * Database :=
  match n with
  | O => ([], d)
  | S n' =>
      let (b, d1) := op d in
      let (bs, d2) := repeat_op n' op d1 in
      (b :: bs, d2)
  end.

(** ** The delivery loop of [main.go] *)

(** What a delivery goroutine asks of the outside: the Telegram client and
    the two store calls whose boolean result it inspects. *)
Inductive Call :=
| Call_SendMessage (chatID : Z) (text : string)
| Call_MarkQueueItemAsDelivered (chatID queueID : Z)
| Call_IncreaseNumTries (chatID queueID : Z).

(** The body of a goroutine, as the calls it makes and how it goes on from
    each result. *)
Inductive Task :=
| Done
| Ask (c : Call) (k : bool -> Task)
| Say (line : string) (k : Task).      (* [log.Printf] *)

(** The closure [go func(q dbhelper.QueueItem) { ... }(q)] of
    [processQueue]. *)
Definition deliver (q : QueueItem) : Task :=
  let increase :=
    (* increase num tries *)
    Ask (Call_IncreaseNumTries (ChatID q) (ID q)) (fun increased =>
      if negb increased
      then Say "*** failed to increase num tries" Done
      else Done) in
  (* send message *)
  let message := Message q in
  Ask (Call_SendMessage (ChatID q) message) (fun sent_Ok =>
    if negb sent_Ok
    then Say "*** failed to send reminder" increase
    else
      (* mark as delivered *)
      Ask (Call_MarkQueueItemAsDelivered (ChatID q) (ID q)) (fun marked =>
        if negb marked
        then Say "*** failed to mark" increase
        else increase)).

(** [func processQueue(client *bot.Bot)]: what it logs itself and the
    goroutines it starts, one per item and in the order of the listing.
    [_maxNumTries] and [_isVerbose] are the package variables it reads. *)
Definition processQueue (f : Fault) (now : Z) (_maxNumTries : Z) (_isVerbose : bool)
    (d : Database) : list string * list Task :=
  let queue := DeliverableQueueItems f now _maxNumTries d in
  (if _isVerbose then ["Checking queue"] else [],
   map deliver (elems queue)).

(** A call as it happened: which goroutine made it and what it got back. *)
Record Event := mkEvent {
  ev_task : nat;
  ev_call : Call;
  ev_result : bool
}.

Fixpoint set_nth {A} (i : nat) (x : A) (l : list A) : list A :=
  match l, i with
  | [], _ => []
  | _ :: l', O => x :: l'
  | y :: l', S i' => y :: set_nth i' x l'
  end.

Definition call_eqb (a b : Call) : bool :=
  match a, b with
  | Call_SendMessage c s, Call_SendMessage c' s' => (c =? c') && String.eqb s s'
  | Call_MarkQueueItemAsDelivered c q, Call_MarkQueueItemAsDelivered c' q' =>
      (c =? c') && (q =? q')
  | Call_IncreaseNumTries c q, Call_IncreaseNumTries c' q' => (c =? c') && (q =? q')
  | _, _ => false
  end.

(** The calls goroutine [i] made, in order. *)
Definition calls_of (i : nat) (tr : list Event) : list (Call * bool) :=
  map (fun e => (ev_call e, ev_result e)) (filter (fun e => Nat.eqb (ev_task e) i) tr).

(** How many times [c] occurs among recorded calls. *)
Definition count_call (c : Call) (cs : list (Call * bool)) : nat :=
  length (filter (fun e => call_eqb (fst e) c) cs).

(** What goroutine [i] got back from its [SendMessage], if it made one. *)
Definition sent_Ok (cs : list (Call * bool)) : option bool :=
  match find (fun e => match fst e with Call_SendMessage _ _ => true | _ => false end) cs with
  | Some e => Some (snd e)
  | None => None
  end.

Section Goroutines.

(** The outside world and its answer to a call. Each store call holds the
    lock for its whole duration and [SendMessage] is one request, so a
    call is one indivisible step of the world. *)
Variable World : Type.
Variable handle : Call -> World -> bool * World.

Record Config := mkConfig {
  pool : list Task;
  world : World;
  trace : list Event
}.

(** One step of one goroutine, chosen freely by the scheduler. *)
Inductive step : Config -> Config -> Prop :=
| step_Ask : forall i c k cfg,
    nth_error (pool cfg) i = Some (Ask c k) ->
    step cfg
         (mkConfig (set_nth i (k (fst (handle c (world cfg)))) (pool cfg))
                   (snd (handle c (world cfg)))
                   (trace cfg ++ [mkEvent i c (fst (handle c (world cfg)))]))
| step_Say : forall i line k cfg,
    nth_error (pool cfg) i = Some (Say line k) ->
    step cfg (mkConfig (set_nth i k (pool cfg)) (world cfg) (trace cfg)).

Inductive steps : Config -> Config -> Prop :=
| steps_refl : forall cfg, steps cfg cfg
| steps_cons : forall a b c, step a b -> steps b c -> steps a c.

Definition finished (cfg : Config) : Prop := Forall (fun t => t = Done) (pool cfg).

(** One goroutine run to its end without interruption. *)
Fixpoint run_task (i : nat) (t : Task) (w : World) : list Event * World :=
  match t with
  | Done => ([], w)
  | Ask c k =>
      let (b, w1) := handle c w in
      let (evs, w2) := run_task i (k b) w1 in
      (mkEvent i c b :: evs, w2)
  | Say _ k => run_task i k w
  end.

(** The schedule that runs the goroutines one after the other, starting
    with number [i]. *)
Fixpoint run_pool (i : nat) (ts : list Task) (w : World) : list Event * World :=
  match ts with
  | [] => ([], w)
  | t :: ts' =>
      let (evs, w1) := run_task i t w in
      let (evs', w2) := run_pool (S i) ts' w1 in
      (evs ++ evs', w2)
  end.

End Goroutines.

Arguments pool {World}.
Arguments world {World}.
Arguments trace {World}.
Arguments mkConfig {World}.
Arguments finished {World}.
Arguments step {World}.
Arguments steps {World}.
Arguments run_task {World}.
Arguments run_pool {World}.

(** What one goroutine does when nothing else is looked at: from a task,
    through calls and their results, to what is left of the task. *)
Inductive task_run : Task -> list (Call * bool) -> Task -> Prop :=
| task_run_here : forall t, task_run t [] t
| task_run_Ask : forall c k b cs t',
    task_run (k b) cs t' -> task_run (Ask c k) ((c, b) :: cs) t'
| task_run_Say : forall line k cs t',
    task_run k cs t' -> task_run (Say line k) cs t'.

(** The world the bot runs in: the database, the clock and what Telegram
    answers to a [SendMessage]. *)
Record Outside := mkOutside {
  out_db : Database;
  out_now : Z;
  out_telegram : Z -> string -> bool
}.

Definition outside_handle (c : Call) (w : Outside) : bool * Outside :=
  match c with
  | Call_SendMessage chatID text => (out_telegram w chatID text, w)
  | Call_MarkQueueItemAsDelivered chatID queueID =>
      let (b, d) := MarkQueueItemAsDelivered NoFault (out_now w) chatID queueID (out_db w) in
      (b, mkOutside d (out_now w) (out_telegram w))
  | Call_IncreaseNumTries chatID queueID =>
      let (b, d) := IncreaseNumTries NoFault chatID queueID (out_db w) in
      (b, mkOutside d (out_now w) (out_telegram w))
  end.

(** ** Vocabulary of the properties *)

(** Descending order of a sort key. *)
Definition desc {A} (key : A -> Z) (a b : A) : Prop := key b <= key a.

(** The rows that hold a given [(chat_id, message, fire_on)]. *)
Definition rows_with (chatID : Z) (msg : string) (fireOn : Time) (d : Database)
    : list QueueRow :=
  filter (fun r => (chat_id r =? chatID) && String.eqb (message r) msg
                   && (fire_on r =? Unix fireOn))
         (queue d).

(** The ceiling [DeliverableQueueItems] filters with. *)
Definition ceiling_in_force (maxNumTries : Z) : Z :=
  if maxNumTries <=? 0 then defaultMaxNumTries else maxNumTries.

(** A record is a delivery candidate. *)
Definition deliverable (maxTries now : Z) (r : QueueRow) : Prop :=
  delivered_on r = None /\ num_tries r < maxTries /\ fire_on r <= now.

(** A record is pending for a destination. *)
Definition pending (chatID : Z) (r : QueueRow) : Prop :=
  chat_id r = chatID /\ delivered_on r = None.

(** Returned items, most recently enqueued first. *)
Definition newest_first (a b : QueueItem) : Prop :=
  Unix (EnqueuedOn b) <= Unix (EnqueuedOn a).

(** The item that stands for a stored record in a listing: the id, the
    destination, the message, the enqueue time and the fire time are the
    record's; [DeliveredOn] is the epoch and [NumTries] is 0. *)
Definition record_item (r : QueueRow) : QueueItem :=
  mkQueueItem (id r) (chat_id r) (message r)
              (time_Unix (enqueued_on r)) (time_Unix (fire_on r)) (time_Unix 0) 0.

(** A database with a history: two due reminders for destination 42, one
    not yet due and one that used up three tries for destination 7, and a
    delivered one. *)
Definition sample_history : list (Fault * Z * Op) :=
  [ (NoFault, 100, OpEnqueue 42 "pay rent" (time_Unix 1000));
    (NoFault, 200, OpEnqueue 42 "call home" (time_Unix 1500));
    (NoFault, 300, OpEnqueue 7 "stand-up" (time_Unix 5000));
    (NoFault, 400, OpEnqueue 7 "water plants" (time_Unix 900));
    (NoFault, 450, OpEnqueue 42 "buy milk" (time_Unix 950));
    (NoFault, 910, OpIncrease 7 4);
    (NoFault, 920, OpIncrease 7 4);
    (NoFault, 930, OpIncrease 7 4);
    (NoFault, 960, OpMark 42 5);
    (NoFault, 960, OpIncrease 42 5) ].

Definition sample_db : Database := Eval vm_compute in run_ops sample_history OpenDb.

(** ** How a call changes the table *)

Definition option_list {A} (x : option A) : list A :=
  match x with
  | Some a => [a]
  | None => []
  end.

(** [n] more tries on a row. *)
Definition add_tries (n : Z) (r : QueueRow) : QueueRow :=
  mkQueueRow (id r) (chat_id r) (message r) (enqueued_on r) (fire_on r)
             (delivered_on r) (num_tries r + n).

(** The cycle on [sample_db] at second 2000 with ceiling 3, Telegram
    accepting messages for destination 42 only when they are not
    ["pay rent"]: the goroutines run one after the other. *)
Definition sample_outside : Outside :=
  mkOutside sample_db 2000 (fun chatID text => negb (String.eqb text "pay rent")).

Definition sample_cycle : Config Outside :=
  let ts := snd (processQueue NoFault 2000 3 false sample_db) in
  mkConfig (map (fun _ => Done) ts)
           (snd (run_pool outside_handle 0 ts sample_outside))
           (fst (run_pool outside_handle 0 ts sample_outside)).

(** Goroutine [i] of the running pool is where its own calls, read off the
    trace, take the task it was started with. *)
Definition on_track {World} (pool0 : list Task) (cfg : Config World) : Prop :=
  forall i t0, nth_error pool0 i = Some t0 ->
               exists t, nth_error (pool cfg) i = Some t
                         /\ task_run t0 (calls_of i (trace cfg)) t.

(** Every call of a trace, whoever made it. *)
Definition all_calls (tr : list Event) : list (Call * bool) :=
  map (fun e => (ev_call e, ev_result e)) tr.

(** ** Configuration and intake in [main.go] *)

Definition messageSaveFailed : string := "알림 저장을 실패 했습니다".
Definition messageTimeParseError : string := "시간이 올바르지 않습니다".

(** [type config struct] *)
Record config := mk_config {
  TelegramAPIToken : string;
  ApiaiAccessToken : string;
  MonitorIntervalSeconds : Z;
  TelegramIntervalSeconds : Z;
  MaxNumTries : Z;
  RestrictUsers : bool;
  AllowedUserIds : list string;
  IsVerbose : bool
}.

(** The package variables that [init] fills from the configuration. *)
Record Globals := mkGlobals {
  _conf : config;
  _maxNumTries : Z;
  _monitorIntervalSeconds : Z;
  _telegramIntervalSeconds : Z;
  _restrictUsers : bool;
  _allowedUserIds : list string;
  _isVerbose : bool
}.

(** [func init()], as far as the configuration goes: [opened] is what
    [openConfig] returned, and the result is [None] when [init] panics.
    The clients and the database handle it creates afterwards are not part
    of this. *)
Definition init (opened : config * option string) : option Globals :=
  let (conf, err) := opened in
  match err with
  | Some _ => None
  | None =>
      let conf :=
        if MonitorIntervalSeconds conf <=? 0
        then mk_config (TelegramAPIToken conf) (ApiaiAccessToken conf) 10
                       (TelegramIntervalSeconds conf) (MaxNumTries conf)
                       (RestrictUsers conf) (AllowedUserIds conf) (IsVerbose conf)
        else conf in
      let monitorIntervalSeconds := MonitorIntervalSeconds conf in
      let conf :=
        if TelegramIntervalSeconds conf <=? 0
        then mk_config (TelegramAPIToken conf) (ApiaiAccessToken conf)
                       (MonitorIntervalSeconds conf) 1 (MaxNumTries conf)
                       (RestrictUsers conf) (AllowedUserIds conf) (IsVerbose conf)
        else conf in
      let telegramIntervalSeconds := TelegramIntervalSeconds conf in
      let conf :=
        if MaxNumTries conf <? 0
        then mk_config (TelegramAPIToken conf) (ApiaiAccessToken conf)
                       (MonitorIntervalSeconds conf) (TelegramIntervalSeconds conf) 10
                       (RestrictUsers conf) (AllowedUserIds conf) (IsVerbose conf)
        else conf in
      Some (mkGlobals conf (MaxNumTries conf) monitorIntervalSeconds
                      telegramIntervalSeconds (RestrictUsers conf)
                      (AllowedUserIds conf) (IsVerbose conf))
  end.

(** [func isAllowedID(id string) bool] *)
Definition isAllowedID (g : Globals) (id_ : string) : bool :=
  if negb (_restrictUsers g) then true
  else
    (fix range (vs : list string) : bool :=
       match vs with
       | [] => false
       | v :: vs' => if String.eqb v id_ then true else range vs'
       end) (_allowedUserIds g).

(** The verb [%d] of [fmt] on an integer: decimal digits, with a minus
    sign for a negative number. *)
Definition format_d (n : Z) : string := NilZero.string_of_int (Z.to_int n).

(** [func sessionIDFor(chatID int64) string] *)
Definition sessionIDFor (chatID : Z) : string := "ss_" ++ format_d chatID.

(** A value of type [interface{}] found in the parameters of a response:
    a string, or something else. *)
Inductive iface :=
| IString (s : string)
| IOther.

(** The parts of [apiai.QueryResponse] that [processQueryResponse] reads;
    [Parameters] is the lookup in the map of that name. *)
Record QueryResponse := mkQueryResponse {
  Result_Fulfillment_Speech : string;
  Result_Metadata_IntentName : string;
  Result_Parameters : string -> option iface
}.

Section Intake.

(** [aihelper.IntentNameMessageConfirmedYes], a constant of package [ai]. *)
Variable IntentNameMessageConfirmedYes : string.

(** [time.ParseInLocation("2006-01-02 15:04:05", fmt.Sprintf("%s %s", dt,
    tm), _location)] as a function of [dt] and [tm]; [None] is a parse
    error. *)
Variable ParseInLocation : iface -> iface -> option Time.

(** [when.Format(messageTimeIsPastFormat)] *)
Variable Format : Time -> string.

(** [func processQueryResponse(chatID int64, response apiai.QueryResponse)
    string]: the reply and the database it leaves; [None] when the type
    assertion [msg.(string)] panics. [now] is the clock read for the
    comparison, [now_db] the clock of the insert. *)
Definition processQueryResponse (f : Fault) (now now_db : Z) (chatID : Z)
    (response : QueryResponse) (d : Database) : option (string * Database) :=
  let message := Result_Fulfillment_Speech response in
  if String.eqb (Result_Metadata_IntentName response) IntentNameMessageConfirmedYes
  then
    let params := Result_Parameters response in
    match params "message" with
    | Some msg =>
        match params "date" with
        | Some dt =>
            match params "time" with
            | Some tm =>
                match ParseInLocation dt tm with
                | Some when_ =>
                    if Unix when_ >=? now
                    then
                      match msg with
                      | IString msg_string =>
                          let (saved, d') := Enqueue f now_db chatID msg_string when_ d in
                          Some (if negb saved then messageSaveFailed else message, d')
                      | IOther => None
                      end
                    else Some (Format when_, d)
                | None => Some (messageTimeParseError, d)
                end
            | None => Some (message, d)
            end
        | None => Some (message, d)
        end
    | None => Some (message, d)
    end
  else Some (message, d).

End Intake.

(** ** Cancelling from a callback in [main.go] *)

Definition commandCancel : string := "/cancel".
Definition messageCommandCanceled : string := "명령이 취소 되었습니다.".
Definition messageReminderCanceled : string := "알림이 취소 되었습니다.".
Definition messageError : string := "오류가 발생했습니다.".

(** The callback data [processUpdate] puts on the button of a pending
    reminder: [fmt.Sprintf("%s %d", commandCancel, r.ID)]. *)
Definition cancel_data (r : QueueItem) : string :=
  commandCancel ++ " " ++ format_d (ID r).

(** [strings.HasPrefix(s, prefix)] *)
Definition HasPrefix (s prefix_ : string) : bool := String.prefix prefix_ s.

Fixpoint skip (n : nat) (s : string) : string :=
  match n, s with
  | O, _ => s
  | S n', String _ s' => skip n' s'
  | S _, EmptyString => EmptyString
  end.

(** [strings.Replace(s, old, new, 1)]: the first occurrence of [old]
    replaced; [s] itself when there is none. *)
Fixpoint Replace_1 (s old new : string) : string :=
  if String.prefix old s then new ++ skip (String.length old) s
  else match s with
       | EmptyString => EmptyString
       | String c s' => String c (Replace_1 s' old new)
       end.

(** The table [asciiSpace] of package [strings]: tab, line feed, vertical
    tab, form feed, carriage return, space. *)
Definition asciiSpace (c : Ascii.ascii) : bool :=
  let n := Ascii.nat_of_ascii c in
  (Nat.leb 9 n && Nat.leb n 13) || Nat.eqb n 32.

(** [c >= utf8.RuneSelf] *)
Definition beyond_ascii (c : Ascii.ascii) : bool := Nat.leb 128 (Ascii.nat_of_ascii c).

(** How a scan of [TrimSpace] ended. *)
Inductive scan_end :=
| ran_out        (* only ASCII space was seen *)
| at_text        (* stopped at an ASCII byte that is not space *)
| at_non_ascii.  (* stopped at a byte of a multi-byte rune *)

(** The first loop of [strings.TrimSpace]: [s[start:]] and how it ended. *)
Fixpoint trim_start (s : string) : string * scan_end :=
  match s with
  | EmptyString => (EmptyString, ran_out)
  | String c s' =>
      if beyond_ascii c then (s, at_non_ascii)
      else if asciiSpace c then trim_start s'
      else (s, at_text)
  end.

(** The second loop, on [s[start:]]: [s[start:stop]] and how it ended. *)
Fixpoint trim_stop (s : string) : string * scan_end :=
  match s with
  | EmptyString => (EmptyString, ran_out)
  | String c s' =>
      match trim_stop s' with
      | (_, ran_out) =>
          if beyond_ascii c then (String c EmptyString, at_non_ascii)
          else if asciiSpace c then (EmptyString, ran_out)
          else (String c EmptyString, at_text)
      | (r, e) => (String c r, e)
      end
  end.

(** [strconv.Atoi(s)] with a 64-bit [int]: an optional sign, then one or
    more decimal digits, and a value that fits; [None] is an error. *)
Definition Atoi (s : string) : option Z :=
  let signed :=
    match s with
    | String c s' =>
        if Ascii.eqb c "-"%char then (true, s')
        else if Ascii.eqb c "+"%char then (false, s')
        else (false, s)
    | EmptyString => (false, s)
    end in
  match snd signed with
  | EmptyString => None
  | digits =>
      match NilEmpty.uint_of_string digits with
      | Some u =>
          let n := if fst signed then - Z.of_uint u else Z.of_uint u in
          if (- 2 ^ 63 <=? n) && (n <=? 2 ^ 63 - 1) then Some n else None
      | None => None
      end
  end.

(** What the Telegram client answered to the two requests of
    [processCallbackQuery], and the texts it logs on failure. *)
Record CallbackAnswers := mkCallbackAnswers {
  answered_Ok : bool;               (* [AnswerCallbackQuery(...).Ok] *)
  edited_Ok : bool;                 (* [EditMessageText(...).Ok] *)
  edit_error_text : string;         (* ["failed to edit message text: ..."] *)
  answer_error_text : string        (* ["failed to answer callback query: ..."] *)
}.

Section Callback.

(** The two functions [strings.TrimSpace] falls back on when it meets a
    byte outside ASCII: [TrimFunc(_, unicode.IsSpace)] and
    [TrimRightFunc(_, unicode.IsSpace)]. *)
Variable TrimFunc_IsSpace : string -> string.
Variable TrimRightFunc_IsSpace : string -> string.

(** [strings.TrimSpace(s)] *)
Definition TrimSpace (s : string) : string :=
  match trim_start s with
  | (rest, at_non_ascii) => TrimFunc_IsSpace rest
  | (rest, _) =>
      match trim_stop rest with
      | (r, at_non_ascii) => TrimRightFunc_IsSpace r
      | (r, _) => r
      end
  end.

(** [func processCallbackQuery(b *bot.Bot, update bot.Update) bool]: its
    result, the text it answers the query with, and the database it
    leaves. [txt] is the callback data and [chatID] the chat of the message
    the query belongs to; [f] is the storage outcome of the delete, [f_log]
    and [now] those of the error log. *)
Definition processCallbackQuery (f f_log : Fault) (now : Z) (api : CallbackAnswers)
    (chatID : Z) (txt : string) (d : Database) : bool * string * Database :=
  (* process result *)
  let (message, d1) :=
    if HasPrefix txt commandCancel
    then
      if String.eqb txt commandCancel
      then (messageCommandCanceled, d)
      else
        let cancelParam := TrimSpace (Replace_1 txt commandCancel "") in
        match Atoi cancelParam with
        | Some queueID =>
            let (deleted, d') := DeleteQueueItem f chatID queueID d in
            (if deleted then messageReminderCanceled else messageError, d')
        | None => (messageError, d)
        end
    else (messageError, d) in
  (* answer callback query *)
  if answered_Ok api
  then
    (* edit message and remove inline keyboards *)
    if edited_Ok api
    then (true, message, d1)
    else (false, message, LogError f_log now (edit_error_text api) d1)
  else (false, message, LogError f_log now (answer_error_text api) d1).

End Callback.

(** ** Vocabulary of the further properties *)

(** The [Log] value the loop of [GetLogs] builds from a row. *)
Definition scan_log (r : LogRow) : Log :=
  mkLog (log_type r) (log_message r) (time_Unix (log_time r)).

(** The rows of [logs] carry the rowids [autoincrement] gave them: in
    insertion order, strictly growing, none above the counter. *)
Definition logs_wf (d : Database) : Prop :=
  StronglySorted (fun a b => log_id a < log_id b) (logs d)
  /\ Forall (fun l => log_id l <= logs_seq d) (logs d).

(** The rows of [queue] other than those of one destination. *)
Definition rows_of_others (chatID : Z) (d : Database) : list QueueRow :=
  filter (fun r => negb (chat_id r =? chatID)) (queue d).

(** The destination a call is made for. *)
Definition op_chat (o : Op) : option Z :=
  match o with
  | OpSaveLog _ _ => None
  | OpEnqueue chatID _ _ => Some chatID
  | OpDelete chatID _ => Some chatID
  | OpIncrease chatID _ => Some chatID
  | OpMark chatID _ => Some chatID
  end.

(** A history entry is an [IncrementTries] on [(chatID, queueID)] that
    meets no storage error. *)
Definition is_increase (chatID queueID : Z) (e : Fault * Z * Op) : bool :=
  match e with
  | (NoFault, _, OpIncrease c q) => (c =? chatID) && (q =? queueID)
  | _ => false
  end.

(** A history entry is a [Delete] on [(chatID, queueID)] that meets no
    storage error. *)
Definition is_delete (chatID queueID : Z) (e : Fault * Z * Op) : bool :=
  match e with
  | (NoFault, _, OpDelete c q) => (c =? chatID) && (q =? queueID)
  | _ => false
  end.





(** A finished delivery cycle, under some schedule of its goroutines, that
    takes the database from [d] to [d']. *)
Definition cycle (listed_at marked_at maxTries : Z) (telegram : Z -> string -> bool)
    (d d' : Database) : Prop :=
  exists (verbose : bool) (cfg : Config Outside),
    steps outside_handle
          (mkConfig (snd (processQueue NoFault listed_at maxTries verbose d))
                    (mkOutside d marked_at telegram) [])
          cfg
    /\ finished cfg /\ out_db (world cfg) = d'.


(** The cycle whose goroutines run one after the other. *)
Definition run_cycle (listed_at marked_at maxTries : Z) (telegram : Z -> string -> bool)
    (d : Database) : Database :=
  out_db (snd (run_pool outside_handle 0
                 (snd (processQueue NoFault listed_at maxTries false d))
                 (mkOutside d marked_at telegram))).

(** Finished cycles in turn: each starts on the table the one before left
    when all its goroutines were done; each comes with the second its
    listing was taken at, the second the store clock read for its marks,
    and what Telegram accepted during it. (The loop itself, whose ticks may
    find earlier goroutines still running, is [monitor] below.) *)
Inductive cycles (maxTries : Z)
  : list (Z * Z * (Z -> string -> bool)) -> Database -> Database -> Prop :=
| cycles_nil : forall d, cycles maxTries [] d d
| cycles_cons : forall listed_at marked_at telegram l d d1 d2,
    cycle listed_at marked_at maxTries telegram d d1 ->
    cycles maxTries l d1 d2 ->
    cycles maxTries ((listed_at, marked_at, telegram) :: l) d d2.



(** [sample_db] after ten more tries on the reminder with id 2. *)
Definition sample_tried_db : Database :=
  Eval vm_compute in
    snd (repeat_op 10 (IncreaseNumTries NoFault 42 2) sample_db).

(** A tick of [monitorQueue]: [processQueue] lists the table as it stands,
    at second [listed_at], and starts one goroutine per item beside the
    goroutines of earlier ticks, finished or not; nothing waits for them.
    From the tick on the store clock reads [marked_at] and Telegram answers
    by [telegram]. [maxTries] and [verbose] are the package variables
    [_maxNumTries] and [_isVerbose]. *)
Definition tick (maxTries : Z) (verbose : bool) (listed_at marked_at : Z)
    (telegram : Z -> string -> bool)
    (cfg : Config Outside) : Config Outside :=
  mkConfig (pool cfg
            ++ snd (processQueue NoFault listed_at maxTries verbose (out_db (world cfg))))
           (mkOutside (out_db (world cfg)) marked_at telegram)
           (trace cfg).

(** [func monitorQueue]: steps of the running goroutines and ticks, in any
    order, with no storage error. The second list holds the configurations
    the ticks found, one per tick. *)
Inductive monitor (maxTries : Z) (verbose : bool)
  : list (Z * Z * (Z -> string -> bool)) -> list (Config Outside)
    -> Config Outside -> Config Outside -> Prop :=
| monitor_last : forall a b,
    steps outside_handle a b -> monitor maxTries verbose [] [] a b
| monitor_tick : forall listed_at marked_at telegram l found a b c,
    steps outside_handle a b ->
    monitor maxTries verbose l found (tick maxTries verbose listed_at marked_at telegram b) c ->
    monitor maxTries verbose ((listed_at, marked_at, telegram) :: l) (b :: found) a c.

(** All goroutines of a configuration run to their end, one after the
    other. *)
Definition finish (cfg : Config Outside) : Config Outside :=
  mkConfig (map (fun _ => Done) (pool cfg))
           (snd (run_pool outside_handle 0 (pool cfg) (world cfg)))
           (trace cfg ++ fst (run_pool outside_handle 0 (pool cfg) (world cfg))).




(** Three ticks at which Telegram refuses everything. *)
Definition sample_refusals : list (Z * Z * (Z -> string -> bool)) :=
  [ (2000, 2000, fun _ _ => false);
    (2010, 2011, fun _ _ => false);
    (2020, 2020, fun _ _ => false) ].

Fixpoint run_cycles (maxTries : Z) (l : list (Z * Z * (Z -> string -> bool)))
    (d : Database) : Database :=
  match l with
  | [] => d
  | (listed_at, marked_at, telegram) :: l' =>
      run_cycles maxTries l' (run_cycle listed_at marked_at maxTries telegram d)
  end.

(** Every byte of the string is an ASCII byte that is not space. *)
Fixpoint plain_text (s : string) : bool :=
  match s with
  | EmptyString => true
  | String c s' => negb (beyond_ascii c) && negb (asciiSpace c) && plain_text s'
  end.

(** Every byte of the string is a decimal digit. *)
Fixpoint all_digits (s : string) : bool :=
  match s with
  | EmptyString => true
  | String c s' =>
      Nat.leb 48 (nat_of_ascii c) && Nat.leb (nat_of_ascii c) 57 && all_digits s'
  end.

(** A database with three saved log entries. *)
Definition sample_logs_db : Database :=
  Eval vm_compute in
    run_ops [ (NoFault, 10, OpSaveLog "log" "started");
              (NoFault, 20, OpSaveLog "err" "failed to edit message text");
              (ExecFails, 25, OpSaveLog "log" "lost");
              (NoFault, 30, OpSaveLog "log" "stopped") ] OpenDb.

(** * Properties *)

(** ** Slices and the row loop *)

Lemma scan_rows_slice_of (rows : list QueueRow) (l0 : list QueueItem) :
  scan_rows rows (slice_of l0) = slice_of (l0 ++ map scan_item rows).
Proof.
  revert l0. induction rows as [| r rows IH]; intros l0; simpl.
  - now rewrite app_nil_r.
  - unfold scan_rows in IH. unfold append. simpl.
    rewrite IH, <- app_assoc. reflexivity.
Qed.

Lemma scan_rows_empty (rows : list QueueRow) :
  scan_rows rows (slice_of []) = slice_of (map scan_item rows).
Proof. apply scan_rows_slice_of. Qed.

(** ** [order by ... desc] *)

Section OrderBy.
Context {A : Type} (key : A -> Z).

Lemma insert_desc_perm (x : A) (l : list A) :
  Permutation (x :: l) (insert_desc key x l).
Proof.
  induction l as [| y l IH]; simpl; [reflexivity |].
  destruct (key y <? key x); [reflexivity |].
  rewrite perm_swap. now constructor.
Qed.

Lemma order_by_desc_perm (l : list A) : Permutation l (order_by_desc key l).
Proof.
  induction l as [| x l IH]; simpl; [constructor |].
  rewrite <- insert_desc_perm. now constructor.
Qed.

Lemma insert_desc_sorted (x : A) (l : list A) :
  StronglySorted (desc key) l -> StronglySorted (desc key) (insert_desc key x l).
Proof.
  induction 1 as [| y l Hs IH Hall]; simpl.
  - repeat constructor.
  - destruct (key y <? key x) eqn:E.
    + apply Z.ltb_lt in E. constructor; [now constructor |].
      constructor; [unfold desc; lia |].
      eapply Forall_impl; [| exact Hall]. unfold desc. intros; lia.
    + apply Z.ltb_ge in E. constructor; [exact IH |].
      eapply Permutation_Forall; [apply insert_desc_perm |].
      constructor; [exact E | exact Hall].
Qed.

Lemma order_by_desc_sorted (l : list A) : StronglySorted (desc key) (order_by_desc key l).
Proof.
  induction l as [| x l IH]; simpl; [constructor |].
  now apply insert_desc_sorted.
Qed.

Lemma order_by_desc_In (x : A) (l : list A) : In x (order_by_desc key l) <-> In x l.
Proof.
  split; apply Permutation_in; [symmetry |]; apply order_by_desc_perm.
Qed.
End OrderBy.

(** ** Rowids *)

Lemma fold_max_bound (l : list Z) (x : Z) : In x l -> x <= fold_right Z.max 0 l.
Proof.
  induction l as [| y l IH]; simpl; [tauto |].
  intros [-> | H]; [lia |]. specialize (IH H). lia.
Qed.

Lemma next_rowid_fresh (d : Database) (r : QueueRow) :
  In r (queue d) -> id r < next_rowid d.
Proof.
  intros H. unfold next_rowid.
  assert (id r <= fold_right Z.max 0 (map id (queue d)))
    by (apply fold_max_bound, in_map, H).
  lia.
Qed.

Lemma next_rowid_not_stored (d : Database) : ~ In (next_rowid d) (map id (queue d)).
Proof.
  intros H. apply in_map_iff in H. destruct H as [r [E H]].
  apply next_rowid_fresh in H. lia.
Qed.

(** The primary key is the only key that can reject a row. *)
Lemma conflicts_iff_same_id (new : QueueRow) (rows : list QueueRow) :
  conflicts new rows = existsb (fun old => id new =? id old) rows.
Proof.
  assert (P : forall old,
             existsb (fun i => collides_on i new old) queue_indexes
             = (id new =? id old)).
  { intros old. unfold collides_on. simpl.
    now rewrite !andb_true_r, !orb_false_r. }
  unfold conflicts. induction rows as [| r rows IH]; [reflexivity |].
  cbn [existsb]. cbn [existsb] in IH. now rewrite IH, P.
Qed.

Lemma fresh_row_no_conflict (new : QueueRow) (rows : list QueueRow) :
  ~ In (id new) (map id rows) -> conflicts new rows = false.
Proof.
  rewrite conflicts_iff_same_id. intros H.
  destruct (existsb _ rows) eqn:E; [| reflexivity].
  apply existsb_exists in E. destruct E as [r [Hr E]].
  apply Z.eqb_eq in E. exfalso. apply H. rewrite E. now apply in_map.
Qed.

(** [insert or ignore] never ignores: the row [Enqueue] builds always gets a
    rowid no stored row has, and no other key of [queue] is unique. *)
Lemma Enqueue_appends (now chatID : Z) (msg : string) (fireOn : Time) (d : Database) :
  Enqueue NoFault now chatID msg fireOn d =
  (true,
   mkDatabase (logs d) (logs_seq d)
     (queue d ++ [mkQueueRow (next_rowid d) chatID msg now (Unix fireOn) None 0])
     (next_rowid d)).
Proof.
  unfold Enqueue, sql_insert_or_ignore_queue.
  rewrite fresh_row_no_conflict; [reflexivity |].
  simpl. apply next_rowid_not_stored.
Qed.

Lemma Enqueue_adds_a_row (now chatID : Z) (msg : string) (fireOn : Time) (d : Database) :
  length (rows_with chatID msg fireOn (snd (Enqueue NoFault now chatID msg fireOn d)))
  = S (length (rows_with chatID msg fireOn d)).
Proof.
  rewrite Enqueue_appends. unfold rows_with. simpl.
  rewrite filter_app, length_app. simpl.
  rewrite !Z.eqb_refl, String.eqb_refl. simpl. lia.
Qed.

(** C1, evaluated on the code: two [Enqueue] calls with the same
    (destination, message, fireAt), on a fresh database, both return [true]
    and leave two rows holding that tuple, with rowids 1 and 2. The
    [or ignore] of the insert has no unique key on these columns to act
    on. *)
Theorem C1_duplicate_enqueue_stores_two_rows :
  let (b1, d1) := Enqueue NoFault 500 42 "pay rent" (time_Unix 1000) OpenDb in
  let (b2, d2) := Enqueue NoFault 500 42 "pay rent" (time_Unix 1000) d1 in
  b1 = true /\ b2 = true /\
  queue d2 = [ mkQueueRow 1 42 "pay rent" 500 1000 None 0;
               mkQueueRow 2 42 "pay rent" 500 1000 None 0 ] /\
  length (rows_with 42 "pay rent" (time_Unix 1000) d2) = 2%nat.
Proof. vm_compute. repeat split; reflexivity. Qed.

(** ** [Delete] *)

Lemma DeleteQueueItem_result (chatID queueID : Z) (d : Database) :
  fst (DeleteQueueItem NoFault chatID queueID d) = true.
Proof. reflexivity. Qed.

Lemma filter_none {A} (p : A -> bool) (l : list A) :
  filter p l = [] -> filter (fun x => negb (p x)) l = l.
Proof.
  induction l as [| x l IH]; simpl; [reflexivity |].
  destruct (p x); simpl; [discriminate |]. intros H. now rewrite IH.
Qed.

Lemma with_queue_same (d : Database) : with_queue d (queue d) = d.
Proof. now destruct d. Qed.

Lemma DeleteQueueItem_no_match (f : Fault) (chatID queueID : Z) (d : Database) :
  filter (where_id_chat queueID chatID) (queue d) = [] ->
  snd (DeleteQueueItem f chatID queueID d) = d.
Proof.
  intros H. destruct f; try reflexivity. simpl.
  rewrite filter_none by exact H. apply with_queue_same.
Qed.

(** C3, evaluated on the code: with one reminder stored for destination 42
    under id 1, [Delete] for destination 99 and id 1 matches no row and
    leaves the database as it was, yet returns [true]: [DeleteQueueItem]
    looks only at the error of [Exec], not at the number of rows affected
    (as [IncreaseNumTries] and [MarkQueueItemAsDelivered] do). *)
Theorem C3_delete_wrong_destination_returns_true :
  let d := snd (Enqueue NoFault 500 42 "pay rent" (time_Unix 1000) OpenDb) in
  queue d = [mkQueueRow 1 42 "pay rent" 500 1000 None 0] /\
  filter (where_id_chat 1 99) (queue d) = [] /\
  DeleteQueueItem NoFault 99 1 d = (true, d) /\
  IncreaseNumTries NoFault 99 1 d = (false, d) /\
  MarkQueueItemAsDelivered NoFault 1001 99 1 d = (false, d).
Proof. vm_compute. repeat split; reflexivity. Qed.

(** ** The listings *)

Lemma DeliverableQueueItems_ok (now maxNumTries : Z) (d : Database) :
  DeliverableQueueItems NoFault now maxNumTries d =
  slice_of (map scan_item
              (order_by_desc enqueued_on
                 (filter (where_deliverable (ceiling_in_force maxNumTries) now) (queue d)))).
Proof. unfold DeliverableQueueItems. apply scan_rows_empty. Qed.

Lemma UndeliveredQueueItems_ok (chatID : Z) (d : Database) :
  UndeliveredQueueItems NoFault chatID d =
  slice_of (map scan_item
              (order_by_desc enqueued_on (filter (where_undelivered chatID) (queue d)))).
Proof. unfold UndeliveredQueueItems. apply scan_rows_empty. Qed.

Lemma where_deliverable_iff (maxTries now : Z) (r : QueueRow) :
  where_deliverable maxTries now r = true <-> deliverable maxTries now r.
Proof.
  unfold where_deliverable, deliverable.
  destruct (delivered_on r).
  - split; [discriminate | intros [H _]; discriminate].
  - rewrite andb_true_iff, Z.ltb_lt, Z.leb_le. tauto.
Qed.

Lemma where_undelivered_iff (chatID : Z) (r : QueueRow) :
  where_undelivered chatID r = true <-> pending chatID r.
Proof.
  unfold where_undelivered, pending.
  rewrite andb_true_iff, Z.eqb_eq.
  destruct (delivered_on r); intuition congruence.
Qed.

Lemma scan_sorted (rows : list QueueRow) :
  StronglySorted (desc enqueued_on) rows ->
  StronglySorted newest_first (map scan_item rows).
Proof.
  induction 1 as [| r rows Hs IH Hall]; simpl; constructor; [exact IH |].
  apply Forall_map. exact Hall.
Qed.

Example sample_db_rows :
  queue sample_db =
  [ mkQueueRow 1 42 "pay rent" 100 1000 None 0;
    mkQueueRow 2 42 "call home" 200 1500 None 0;
    mkQueueRow 3 7 "stand-up" 300 5000 None 0;
    mkQueueRow 4 7 "water plants" 400 900 None 3;
    mkQueueRow 5 42 "buy milk" 450 950 (Some 960) 1 ].
Proof. reflexivity. Qed.

Example sample_db_deliverable :
  map ID (elems (DeliverableQueueItems NoFault 2000 3 sample_db)) = [2; 1].
Proof. reflexivity. Qed.

Example sample_db_deliverable_default :
  map ID (elems (DeliverableQueueItems NoFault 2000 0 sample_db)) = [4; 2; 1].
Proof. reflexivity. Qed.

Example sample_db_undelivered :
  map ID (elems (UndeliveredQueueItems NoFault 7 sample_db)) = [4; 3].
Proof. reflexivity. Qed.

Lemma filter_split (p : QueueRow -> bool) (l : list QueueRow) :
  Permutation l (filter p l ++ filter (fun r => negb (p r)) l).
Proof.
  induction l as [| x l IH]; simpl; [constructor |].
  destruct (p x); simpl; [now constructor |].
  rewrite <- Permutation_middle. now constructor.
Qed.

Lemma record_sorted (rows : list QueueRow) :
  StronglySorted (desc enqueued_on) rows ->
  StronglySorted newest_first (map record_item rows).
Proof.
  induction 1 as [| r rows Hs IH Hall]; simpl; constructor; [exact IH |].
  apply Forall_map. exact Hall.
Qed.

Lemma scan_undelivered (r : QueueRow) :
  delivered_on r = None -> scan_item r = record_item r.
Proof. intros H. unfold scan_item, record_item. now rewrite H. Qed.

(** What a listing with a where clause returns, in terms of the records:
    the table splits into the listed records, which all satisfy the
    condition, and the rest, none of which does. *)
Lemma listing_partition (p : QueueRow -> bool) (P : QueueRow -> Prop)
    (table : list QueueRow) :
  (forall r, p r = true <-> P r) -> (forall r, P r -> delivered_on r = None) ->
  exists rows rest,
    map scan_item (order_by_desc enqueued_on (filter p table)) = map record_item rows /\
    Permutation table (rows ++ rest) /\
    Forall P rows /\ Forall (fun r => ~ P r) rest /\
    (forall r, In r rows <-> In r table /\ P r) /\
    StronglySorted newest_first (map record_item rows).
Proof.
  intros Hp Hnull.
  assert (M : forall r, In r (order_by_desc enqueued_on (filter p table))
                        <-> In r table /\ P r).
  { intros r. rewrite order_by_desc_In, filter_In, Hp. tauto. }
  exists (order_by_desc enqueued_on (filter p table)),
         (filter (fun r => negb (p r)) table).
  split; [| split; [| split; [| split; [| split]]]].
  - apply map_ext_in. intros r Hr. apply scan_undelivered, Hnull, M, Hr.
  - rewrite <- order_by_desc_perm. apply filter_split.
  - apply Forall_forall. intros r Hr. now apply M.
  - apply Forall_forall. intros r Hr HP. apply filter_In in Hr.
    destruct Hr as [_ Hr]. apply Hp in HP. rewrite HP in Hr. discriminate.
  - exact M.
  - apply record_sorted, order_by_desc_sorted.
Qed.

Lemma deliverable_listing (now maxTries : Z) (d : Database) :
  exists rows rest,
    DeliverableQueueItems NoFault now maxTries d = slice_of (map record_item rows) /\
    Permutation (queue d) (rows ++ rest) /\
    Forall (deliverable (ceiling_in_force maxTries) now) rows /\
    Forall (fun r => ~ deliverable (ceiling_in_force maxTries) now r) rest /\
    (forall r, In r rows
               <-> In r (queue d) /\ deliverable (ceiling_in_force maxTries) now r) /\
    StronglySorted newest_first (map record_item rows).
Proof.
  destruct (listing_partition (where_deliverable (ceiling_in_force maxTries) now)
              (deliverable (ceiling_in_force maxTries) now) (queue d))
    as [rows [rest [E H]]].
  - intros r. apply where_deliverable_iff.
  - intros r [H _]. exact H.
  - exists rows, rest. split; [| exact H].
    rewrite DeliverableQueueItems_ok. now f_equal.
Qed.

(** C4: with a positive ceiling and no storage error, the deliverable
    listing returns one item for each stored record with [delivered_on]
    null, [num_tries] below the ceiling and [fire_on] at or before [now],
    and for no other: the table splits into the listed records and the
    rest, none of which meets the three conditions. Each item carries the
    id, destination, message, enqueue time and fire time of its record, and
    the items come most recently enqueued first. *)
Theorem C4_deliverable_listing (d : Database) (maxTries now : Z) :
  0 < maxTries ->
  exists rows rest,
    DeliverableQueueItems NoFault now maxTries d = slice_of (map record_item rows) /\
    Permutation (queue d) (rows ++ rest) /\
    Forall (deliverable maxTries now) rows /\
    Forall (fun r => ~ deliverable maxTries now r) rest /\
    (forall r, In r rows <-> In r (queue d) /\ deliverable maxTries now r) /\
    StronglySorted newest_first (elems (DeliverableQueueItems NoFault now maxTries d)).
Proof.
  intros Hpos.
  assert (E : ceiling_in_force maxTries = maxTries).
  { unfold ceiling_in_force. destruct (maxTries <=? 0) eqn:L; [| reflexivity].
    apply Z.leb_le in L. lia. }
  destruct (deliverable_listing now maxTries d)
    as [rows [rest [Hl [Hp [Hin [Hout [Hiff Hs]]]]]]].
  rewrite E in Hin, Hout, Hiff.
  exists rows, rest. rewrite Hl. simpl. tauto.
Qed.

Lemma C4_deliverable_listing_witness :
  exists rows rest,
    DeliverableQueueItems NoFault 2000 3 sample_db = slice_of (map record_item rows) /\
    Permutation (queue sample_db) (rows ++ rest) /\
    Forall (deliverable 3 2000) rows /\
    Forall (fun r => ~ deliverable 3 2000 r) rest /\
    (forall r, In r rows <-> In r (queue sample_db) /\ deliverable 3 2000 r) /\
    StronglySorted newest_first (elems (DeliverableQueueItems NoFault 2000 3 sample_db)).
Proof. apply (C4_deliverable_listing sample_db 3 2000). reflexivity. Defined.

Example sample_db_deliverable_items :
  elems (DeliverableQueueItems NoFault 2000 3 sample_db) =
  [ mkQueueItem 2 42 "call home" (time_Unix 200) (time_Unix 1500) (time_Unix 0) 0;
    mkQueueItem 1 42 "pay rent" (time_Unix 100) (time_Unix 1000) (time_Unix 0) 0 ].
Proof. reflexivity. Qed.

(** C7: without a storage error, the pending listing returns one item for
    each stored record of the destination with [delivered_on] null, and
    for no other: the table splits into the listed records and the rest,
    none of which is pending for the destination. Each item carries the
    id, destination, message, enqueue time and fire time of its record,
    the items come most recently enqueued first, and [num_tries] plays no
    part: a record that used up its tries is listed as long as it is
    undelivered. *)
Theorem C7_pending_listing (d : Database) (chatID : Z) :
  exists rows rest,
    UndeliveredQueueItems NoFault chatID d = slice_of (map record_item rows) /\
    Permutation (queue d) (rows ++ rest) /\
    Forall (pending chatID) rows /\
    Forall (fun r => ~ pending chatID r) rest /\
    (forall r, In r rows <-> In r (queue d) /\ pending chatID r) /\
    StronglySorted newest_first (elems (UndeliveredQueueItems NoFault chatID d)) /\
    (forall r n,
        In r (queue d) -> chat_id r = chatID -> delivered_on r = None ->
        num_tries r = n ->
        In (mkQueueItem (id r) chatID (message r) (time_Unix (enqueued_on r))
                        (time_Unix (fire_on r)) (time_Unix 0) 0)
           (elems (UndeliveredQueueItems NoFault chatID d))).
Proof.
  destruct (listing_partition (where_undelivered chatID) (pending chatID) (queue d))
    as [rows [rest [E [Hp [Hin [Hout [Hiff Hs]]]]]]].
  - intros r. apply where_undelivered_iff.
  - intros r [_ H]. exact H.
  - assert (L : UndeliveredQueueItems NoFault chatID d = slice_of (map record_item rows))
      by (rewrite UndeliveredQueueItems_ok; now f_equal).
    exists rows, rest. rewrite L. simpl.
    split; [reflexivity |]. split; [exact Hp |]. split; [exact Hin |].
    split; [exact Hout |]. split; [exact Hiff |]. split; [exact Hs |].
    intros r n Hr Hc Hd _.
    assert (Hrow : In r rows) by (apply Hiff; split; [exact Hr | now split]).
    apply (in_map record_item) in Hrow. unfold record_item in Hrow.
    now rewrite Hc in Hrow.
Qed.

(** C8: a ceiling argument that is zero or negative is replaced by the
    default 10: the listing is the one for ceiling 10, and without a
    storage error it returns one item for each stored record with
    [delivered_on] null, [num_tries < 10] and [fire_on] at or before [now],
    and for no other, so neither nothing nor everything. *)
Theorem C8_nonpositive_ceiling_is_default (f : Fault) (now maxTries : Z) (d : Database) :
  maxTries <= 0 ->
  defaultMaxNumTries = 10 /\
  DeliverableQueueItems f now maxTries d = DeliverableQueueItems f now 10 d /\
  exists rows rest,
    DeliverableQueueItems NoFault now maxTries d = slice_of (map record_item rows) /\
    Permutation (queue d) (rows ++ rest) /\
    Forall (fun r => delivered_on r = None /\ num_tries r < 10 /\ fire_on r <= now) rows /\
    Forall (fun r => ~ (delivered_on r = None /\ num_tries r < 10 /\ fire_on r <= now))
           rest.
Proof.
  intros Hle.
  assert (E : (maxTries <=? 0) = true) by now apply Z.leb_le.
  split; [reflexivity |]. split.
  - unfold DeliverableQueueItems. rewrite E. reflexivity.
  - destruct (deliverable_listing now maxTries d)
      as [rows [rest [Hl [Hp [Hin [Hout _]]]]]].
    unfold ceiling_in_force in Hin, Hout. rewrite E in Hin, Hout.
    exists rows, rest. tauto.
Qed.

Lemma C8_nonpositive_ceiling_is_default_witness :
  defaultMaxNumTries = 10 /\
  DeliverableQueueItems NoFault 2000 (-3) sample_tried_db
  = DeliverableQueueItems NoFault 2000 10 sample_tried_db /\
  exists rows rest,
    DeliverableQueueItems NoFault 2000 (-3) sample_tried_db
    = slice_of (map record_item rows) /\
    Permutation (queue sample_tried_db) (rows ++ rest) /\
    Forall (fun r => delivered_on r = None /\ num_tries r < 10 /\ fire_on r <= 2000) rows /\
    Forall (fun r => ~ (delivered_on r = None /\ num_tries r < 10 /\ fire_on r <= 2000))
           rest.
Proof.
  apply (C8_nonpositive_ceiling_is_default NoFault 2000 (-3) sample_tried_db).
  discriminate.
Defined.

Example sample_tried_db_default_ceiling :
  map num_tries (queue sample_tried_db) = [0; 10; 0; 3; 1] /\
  elems (DeliverableQueueItems NoFault 2000 (-3) sample_tried_db) =
  [ mkQueueItem 4 7 "water plants" (time_Unix 400) (time_Unix 900) (time_Unix 0) 0;
    mkQueueItem 1 42 "pay rent" (time_Unix 100) (time_Unix 1000) (time_Unix 0) 0 ] /\
  elems (DeliverableQueueItems NoFault 2000 0 sample_tried_db)
  = elems (DeliverableQueueItems NoFault 2000 (-3) sample_tried_db).
Proof. repeat split. Qed.

(** C9: every item the deliverable listing or the pending listing returns
    has [NumTries] 0, whatever [num_tries] its row holds: the item is the
    scan of a stored row, and neither query selects that column. *)
Theorem C9_listed_NumTries_is_zero
    (f : Fault) (now maxTries chatID : Z) (d : Database) (q : QueueItem) :
  In q (elems (DeliverableQueueItems f now maxTries d)) \/
  In q (elems (UndeliveredQueueItems f chatID d)) ->
  NumTries q = 0 /\ exists r, In r (queue d) /\ q = scan_item r.
Proof.
  assert (S : forall p rows,
             In q (map scan_item (order_by_desc enqueued_on (filter p rows))) ->
             NumTries q = 0 /\ exists r, In r rows /\ q = scan_item r).
  { intros p rows H. apply in_map_iff in H. destruct H as [r [<- H]].
    split; [reflexivity |]. exists r. split; [| reflexivity].
    apply order_by_desc_In, filter_In in H. tauto. }
  intros [H | H]; destruct f; try (simpl in H; tauto).
  - rewrite DeliverableQueueItems_ok in H. exact (S _ _ H).
  - rewrite UndeliveredQueueItems_ok in H. exact (S _ _ H).
Qed.

Lemma C9_listed_NumTries_is_zero_witness :
  NumTries (scan_item (mkQueueRow 4 7 "water plants" 400 900 None 3)) = 0 /\
  exists r, In r (queue sample_db)
            /\ scan_item (mkQueueRow 4 7 "water plants" 400 900 None 3) = scan_item r.
Proof.
  apply (C9_listed_NumTries_is_zero NoFault 2000 10 7 sample_db).
  right. simpl. left. reflexivity.
Defined.

(** C10: when preparing the statement or running the query fails, each of
    the three read operations returns an empty slice that is not [nil],
    the very value it returns without a fault when no row matches. *)
Theorem C10_read_error_gives_empty_slice
    (f : Fault) (latestN now maxTries chatID : Z) (d d0 : Database) :
  f <> NoFault ->
  (GetLogs f latestN d = slice_of [] /\
   DeliverableQueueItems f now maxTries d = slice_of [] /\
   UndeliveredQueueItems f chatID d = slice_of []) /\
  is_nil (GetLogs f latestN d) = false /\
  is_nil (DeliverableQueueItems f now maxTries d) = false /\
  is_nil (UndeliveredQueueItems f chatID d) = false /\
  (logs d0 = [] -> GetLogs NoFault latestN d0 = GetLogs f latestN d) /\
  (filter (where_deliverable (ceiling_in_force maxTries) now) (queue d0) = [] ->
   DeliverableQueueItems NoFault now maxTries d0 = DeliverableQueueItems f now maxTries d) /\
  (filter (where_undelivered chatID) (queue d0) = [] ->
   UndeliveredQueueItems NoFault chatID d0 = UndeliveredQueueItems f chatID d).
Proof.
  intros Hf.
  assert (G : GetLogs f latestN d = slice_of []) by (destruct f; [tauto | |]; reflexivity).
  assert (D : DeliverableQueueItems f now maxTries d = slice_of [])
    by (destruct f; [tauto | |]; reflexivity).
  assert (U : UndeliveredQueueItems f chatID d = slice_of [])
    by (destruct f; [tauto | |]; reflexivity).
  rewrite G, D, U. repeat split.
  - intros E. unfold GetLogs. rewrite E. simpl.
    unfold sql_limit. destruct (latestN <? 0); [reflexivity |].
    now rewrite firstn_nil.
  - intros E. rewrite DeliverableQueueItems_ok, E. reflexivity.
  - intros E. rewrite UndeliveredQueueItems_ok, E. reflexivity.
Qed.

Lemma C7_pending_listing_witness :
  exists rows rest,
    UndeliveredQueueItems NoFault 7 sample_db = slice_of (map record_item rows) /\
    Permutation (queue sample_db) (rows ++ rest) /\
    Forall (pending 7) rows /\
    Forall (fun r => ~ pending 7 r) rest /\
    (forall r, In r rows <-> In r (queue sample_db) /\ pending 7 r) /\
    StronglySorted newest_first (elems (UndeliveredQueueItems NoFault 7 sample_db)) /\
    (forall r n,
        In r (queue sample_db) -> chat_id r = 7 -> delivered_on r = None ->
        num_tries r = n ->
        In (mkQueueItem (id r) 7 (message r) (time_Unix (enqueued_on r))
                        (time_Unix (fire_on r)) (time_Unix 0) 0)
           (elems (UndeliveredQueueItems NoFault 7 sample_db))).
Proof. exact (C7_pending_listing sample_db 7). Defined.

Example sample_db_undelivered_items :
  elems (UndeliveredQueueItems NoFault 7 sample_db) =
  [ mkQueueItem 4 7 "water plants" (time_Unix 400) (time_Unix 900) (time_Unix 0) 0;
    mkQueueItem 3 7 "stand-up" (time_Unix 300) (time_Unix 5000) (time_Unix 0) 0 ].
Proof. reflexivity. Qed.

Lemma C10_read_error_gives_empty_slice_witness :
  (GetLogs PrepareFails 5 sample_db = slice_of [] /\
   DeliverableQueueItems PrepareFails 2000 3 sample_db = slice_of [] /\
   UndeliveredQueueItems PrepareFails 7 sample_db = slice_of []) /\
  is_nil (GetLogs PrepareFails 5 sample_db) = false /\
  is_nil (DeliverableQueueItems PrepareFails 2000 3 sample_db) = false /\
  is_nil (UndeliveredQueueItems PrepareFails 7 sample_db) = false /\
  (logs OpenDb = [] -> GetLogs NoFault 5 OpenDb = GetLogs PrepareFails 5 sample_db) /\
  (filter (where_deliverable (ceiling_in_force 3) 2000) (queue OpenDb) = [] ->
   DeliverableQueueItems NoFault 2000 3 OpenDb
   = DeliverableQueueItems PrepareFails 2000 3 sample_db) /\
  (filter (where_undelivered 7) (queue OpenDb) = [] ->
   UndeliveredQueueItems NoFault 7 OpenDb = UndeliveredQueueItems PrepareFails 7 sample_db).
Proof.
  apply (C10_read_error_gives_empty_slice PrepareFails 5 2000 3 7 sample_db OpenDb).
  discriminate.
Defined.

Lemma flat_map_keep {A} (l : list A) : flat_map (fun x => option_list (Some x)) l = l.
Proof. induction l as [| x l IH]; simpl; [reflexivity | f_equal; exact IH]. Qed.

Lemma flat_map_update {A} (p : A -> bool) (g : A -> A) (l : list A) :
  flat_map (fun x => option_list (Some (if p x then g x else x))) l
  = map (fun x => if p x then g x else x) l.
Proof. induction l as [| x l IH]; simpl; [reflexivity | f_equal; exact IH]. Qed.

Lemma flat_map_delete {A} (p : A -> bool) (l : list A) :
  flat_map (fun x => option_list (if p x then None else Some x)) l
  = filter (fun x => negb (p x)) l.
Proof.
  induction l as [| x l IH]; simpl; [reflexivity |].
  destruct (p x); simpl; [| f_equal]; exact IH.
Qed.

(** The table after a call: every stored row as the call leaves it, then
    the row the call adds. *)
Lemma queue_after (f : Fault) (now : Z) (o : Op) (d : Database) :
  queue (snd (apply_op f now o d))
  = flat_map (fun r => option_list (row_after f now o r)) (queue d)
    ++ option_list (row_added f now o d).
Proof.
  destruct o as [typ msg | chatID msg fireOn | chatID queueID | chatID queueID
                 | chatID queueID];
    destruct f;
    try (simpl; rewrite app_nil_r; symmetry; apply flat_map_keep).
  - unfold apply_op. rewrite Enqueue_appends. simpl.
    f_equal. symmetry. apply flat_map_keep.
  - simpl. rewrite app_nil_r. symmetry.
    apply (flat_map_delete (where_id_chat queueID chatID)).
  - simpl. rewrite app_nil_r. symmetry.
    apply (flat_map_update (where_id_chat queueID chatID) set_num_tries_plus_1).
  - simpl. rewrite app_nil_r. symmetry.
    apply (flat_map_update (where_id_chat queueID chatID) (set_delivered_on now)).
Qed.

Lemma queue_seq_after (f : Fault) (now : Z) (o : Op) (d : Database) :
  queue_seq (snd (apply_op f now o d))
  = match row_added f now o d with
    | Some new => id new
    | None => queue_seq d
    end.
Proof.
  destruct o as [typ msg | chatID msg fireOn | chatID queueID | chatID queueID
                 | chatID queueID];
    destruct f; try reflexivity.
  unfold apply_op. rewrite Enqueue_appends. reflexivity.
Qed.

Lemma In_queue_after (f : Fault) (now : Z) (o : Op) (d : Database) (r' : QueueRow) :
  In r' (queue (snd (apply_op f now o d))) <->
  (exists r, In r (queue d) /\ row_after f now o r = Some r') \/
  row_added f now o d = Some r'.
Proof.
  rewrite queue_after, in_app_iff, in_flat_map.
  split; intros [H | H].
  - left. destruct H as [r [Hin H]]. exists r. split; [exact Hin |].
    destruct (row_after f now o r); simpl in H; [| tauto].
    destruct H as [-> | []]. reflexivity.
  - right. destruct (row_added f now o d); simpl in H; [| tauto].
    destruct H as [-> | []]. reflexivity.
  - left. destruct H as [r [Hin H]]. exists r. split; [exact Hin |].
    rewrite H. now left.
  - right. rewrite H. now left.
Qed.

(** A call never changes the identity of a row it keeps. *)
Lemma row_after_same_record (f : Fault) (now : Z) (o : Op) (r r' : QueueRow) :
  row_after f now o r = Some r' ->
  id r' = id r /\ chat_id r' = chat_id r /\ message r' = message r /\
  enqueued_on r' = enqueued_on r /\ fire_on r' = fire_on r.
Proof.
  destruct f, o; simpl; try (intros [= <-]; tauto);
    destruct (where_id_chat _ _ r); intros [= <-]; simpl; tauto.
Qed.

Lemma row_added_fresh (f : Fault) (now : Z) (o : Op) (d : Database) (new : QueueRow) :
  row_added f now o d = Some new ->
  id new = next_rowid d /\ delivered_on new = None /\ num_tries new = 0.
Proof.
  destruct f, o; simpl; try discriminate. intros [= <-]. simpl. tauto.
Qed.

Lemma next_rowid_above_seq (d : Database) : queue_seq d < next_rowid d.
Proof. unfold next_rowid. lia. Qed.

(** ** Rowids stay a key *)

Lemma wf_OpenDb : wf OpenDb.
Proof. split; constructor. Qed.

Lemma same_id_same_row (d : Database) (a b : QueueRow) :
  wf d -> In a (queue d) -> In b (queue d) -> id a = id b -> a = b.
Proof.
  intros [Hnd _]. induction (queue d) as [| x l IH]; simpl; [tauto |].
  simpl in Hnd. apply NoDup_cons_iff in Hnd. destruct Hnd as [Hx Hnd].
  intros [-> | Ha] [-> | Hb] E; auto.
  - exfalso. apply Hx. rewrite E. now apply in_map.
  - exfalso. apply Hx. rewrite <- E. now apply in_map.
Qed.

Lemma NoDup_flat_map_id (g : QueueRow -> option QueueRow) (l : list QueueRow) :
  (forall r r', g r = Some r' -> id r' = id r) ->
  NoDup (map id l) ->
  NoDup (map id (flat_map (fun r => option_list (g r)) l)).
Proof.
  intros Hg. induction l as [| x l IH]; simpl; [constructor |].
  intros Hnd. apply NoDup_cons_iff in Hnd. destruct Hnd as [Hx Hnd].
  destruct (g x) as [x' |] eqn:E; simpl; [| now apply IH].
  constructor; [| now apply IH].
  intros Hin. apply Hx. apply in_map_iff in Hin. destruct Hin as [y [Ey Hin]].
  apply in_flat_map in Hin. destruct Hin as [z [Hz Hin]].
  destruct (g z) as [z' |] eqn:Ez; simpl in Hin; [| tauto].
  destruct Hin as [-> | []].
  apply Hg in E. apply Hg in Ez. rewrite <- E, <- Ey, Ez. now apply in_map.
Qed.

Lemma wf_apply_op (f : Fault) (now : Z) (o : Op) (d : Database) :
  wf d -> wf (snd (apply_op f now o d)).
Proof.
  intros [Hnd Hle]. split.
  - rewrite queue_after, map_app.
    assert (N : NoDup (map id (flat_map (fun r => option_list (row_after f now o r))
                                        (queue d)))).
    { apply NoDup_flat_map_id; [| exact Hnd].
      intros r r' H. now apply row_after_same_record in H. }
    destruct (row_added f now o d) as [new |] eqn:E; simpl;
      [| now rewrite app_nil_r].
    apply row_added_fresh in E. destruct E as [E _].
    eapply Permutation_NoDup; [apply Permutation_cons_append |].
    constructor; [| exact N].
    intros Hin. apply in_map_iff in Hin. destruct Hin as [y [Ey Hin]].
    apply in_flat_map in Hin. destruct Hin as [z [Hz Hin]].
    destruct (row_after f now o z) as [z' |] eqn:Ez; simpl in Hin; [| tauto].
    destruct Hin as [-> | []].
    apply row_after_same_record in Ez. apply next_rowid_fresh in Hz. lia.
  - apply Forall_forall. intros r' Hin. rewrite queue_seq_after.
    apply In_queue_after in Hin. destruct Hin as [[r [Hin H]] | H].
    + apply row_after_same_record in H. destruct H as [-> _].
      destruct (row_added f now o d) as [new |] eqn:E.
      * apply row_added_fresh in E. destruct E as [-> _].
        apply next_rowid_fresh in Hin. lia.
      * rewrite Forall_forall in Hle. now apply Hle.
    + rewrite H. lia.
Qed.

Lemma wf_run_ops (h : list (Fault * Z * Op)) (d : Database) :
  wf d -> wf (run_ops h d).
Proof.
  revert d. induction h as [| [[f now] o] h IH]; intros d H; simpl; [exact H |].
  now apply IH, wf_apply_op.
Qed.

(** Every database the operations can build from a fresh file. *)
Lemma reachable_wf (h : list (Fault * Z * Op)) : wf (run_ops h OpenDb).
Proof. apply wf_run_ops, wf_OpenDb. Qed.

Lemma row_of_In (d : Database) (r : QueueRow) :
  wf d -> In r (queue d) -> row_of (id r) d = Some r.
Proof.
  intros Hwf Hin. unfold row_of.
  destruct (find _ (queue d)) as [r0 |] eqn:E.
  - apply find_some in E. destruct E as [H0 E]. apply Z.eqb_eq in E.
    f_equal. now apply (same_id_same_row d).
  - exfalso. eapply find_none in E; [| exact Hin]. simpl in E.
    now rewrite Z.eqb_refl in E.
Qed.

Lemma row_of_Some (d : Database) (i : Z) (r : QueueRow) :
  row_of i d = Some r -> In r (queue d) /\ id r = i.
Proof.
  unfold row_of. intros E. apply find_some in E. now rewrite Z.eqb_eq in E.
Qed.

(** ** [delivered_on] and [num_tries] under the calls *)

Lemma where_id_chat_iff (queueID chatID : Z) (r : QueueRow) :
  where_id_chat queueID chatID r = true <-> id r = queueID /\ chat_id r = chatID.
Proof. unfold where_id_chat. now rewrite andb_true_iff, !Z.eqb_eq. Qed.

Lemma where_id_chat_self (r : QueueRow) : where_id_chat (id r) (chat_id r) r = true.
Proof. now apply where_id_chat_iff. Qed.

Lemma row_after_delivered_on (f : Fault) (now : Z) (o : Op) (r r' : QueueRow) :
  row_after f now o r = Some r' ->
  delivered_on r' = delivered_on r \/
  (f = NoFault /\ o = OpMark (chat_id r) (id r) /\ delivered_on r' = Some now).
Proof.
  destruct f, o as [typ msg | chatID msg fireOn | chatID queueID | chatID queueID
                    | chatID queueID];
    simpl; try (intros [= <-]; now left);
    destruct (where_id_chat queueID chatID r) eqn:W;
    intros [= <-]; try (now left).
  right. apply where_id_chat_iff in W. destruct W as [<- <-]. auto.
Qed.

Lemma row_after_num_tries (f : Fault) (now : Z) (o : Op) (r r' : QueueRow) :
  row_after f now o r = Some r' ->
  num_tries r' = num_tries r \/
  (f = NoFault /\ o = OpIncrease (chat_id r) (id r) /\ num_tries r' = num_tries r + 1).
Proof.
  destruct f, o as [typ msg | chatID msg fireOn | chatID queueID | chatID queueID
                    | chatID queueID];
    simpl; try (intros [= <-]; now left);
    destruct (where_id_chat queueID chatID r) eqn:W;
    intros [= <-]; try (now left).
  right. apply where_id_chat_iff in W. destruct W as [<- <-]. auto.
Qed.

(** The row a call leaves under the rowid of a stored row is that row as
    the call changed it. *)
Lemma same_record_after (f : Fault) (now : Z) (o : Op) (d : Database) (r r' : QueueRow) :
  wf d -> In r (queue d) ->
  In r' (queue (snd (apply_op f now o d))) -> id r' = id r ->
  row_after f now o r = Some r'.
Proof.
  intros Hwf Hin Hin' E. apply In_queue_after in Hin'.
  destruct Hin' as [[r0 [H0 H]] | H].
  - assert (r0 = r) as ->; [| exact H].
    apply (same_id_same_row d); try assumption.
    apply row_after_same_record in H. destruct H as [H _]. congruence.
  - apply row_added_fresh in H. destruct H as [H _].
    apply next_rowid_fresh in Hin. lia.
Qed.

Lemma update_matches (w : QueueRow -> bool) (rows : list QueueRow) (r : QueueRow) :
  In r rows -> w r = true -> (Z.of_nat (length (filter w rows)) <=? 0) = false.
Proof.
  intros Hin Hw. apply Z.leb_gt.
  assert (In r (filter w rows)) as H by now apply filter_In.
  destruct (filter w rows); [destruct H | simpl; lia].
Qed.

Lemma MarkQueueItemAsDelivered_matches (now : Z) (d : Database) (r : QueueRow) :
  In r (queue d) ->
  MarkQueueItemAsDelivered NoFault now (chat_id r) (id r) d
  = (true, snd (apply_op NoFault now (OpMark (chat_id r) (id r)) d)).
Proof.
  intros Hin. simpl.
  now rewrite (update_matches _ _ r Hin (where_id_chat_self r)).
Qed.

Lemma IncreaseNumTries_matches (now : Z) (d : Database) (r : QueueRow) :
  In r (queue d) ->
  IncreaseNumTries NoFault (chat_id r) (id r) d
  = (true, snd (apply_op NoFault now (OpIncrease (chat_id r) (id r)) d)).
Proof.
  intros Hin. simpl.
  now rewrite (update_matches _ _ r Hin (where_id_chat_self r)).
Qed.

Lemma queue_seq_grows (f : Fault) (now : Z) (o : Op) (d : Database) :
  queue_seq d <= queue_seq (snd (apply_op f now o d)).
Proof.
  rewrite queue_seq_after. destruct (row_added f now o d) as [new |] eqn:E; [| lia].
  apply row_added_fresh in E. destruct E as [-> _].
  pose proof (next_rowid_above_seq d). lia.
Qed.

(** A property of the row under rowid [i] that no call destroys, and that
    fresh rows need not have, holds after any history: the rowid is never
    given out again. *)
Lemma history_invariant (P : QueueRow -> Prop) (i : Z) :
  (forall f now o r r', row_after f now o r = Some r' -> P r -> P r') ->
  forall h d,
    i <= queue_seq d ->
    (forall r, In r (queue d) -> id r = i -> P r) ->
    forall r, In r (queue (run_ops h d)) -> id r = i -> P r.
Proof.
  intros Hstep. induction h as [| [[f now] o] h IH]; intros d Hseq HP; simpl;
    [exact HP |].
  apply IH.
  - pose proof (queue_seq_grows f now o d). lia.
  - intros r' Hin E. apply In_queue_after in Hin.
    destruct Hin as [[r [Hin H]] | H].
    + apply (Hstep _ _ _ _ _ H). apply HP; [exact Hin |].
      apply row_after_same_record in H. destruct H as [H _]. congruence.
    + apply row_added_fresh in H. destruct H as [H _].
      pose proof (next_rowid_above_seq d). lia.
Qed.

(** C2, against the claim as stated: a reminder is enqueued and marked
    delivered at second 1001; a second [MarkDelivered] on the same
    (destination, id) at second 1011 returns [true] and leaves 1011 in
    [delivered_on]. *)
Lemma C2_second_mark_overwrites :
  let d1 := snd (Enqueue NoFault 500 42 "pay rent" (time_Unix 1000) OpenDb) in
  let d2 := snd (MarkQueueItemAsDelivered NoFault 1001 42 1 d1) in
  let d3 := snd (MarkQueueItemAsDelivered NoFault 1011 42 1 d2) in
  option_map delivered_on (row_of 1 d2) = Some (Some 1001) /\
  fst (MarkQueueItemAsDelivered NoFault 1011 42 1 d2) = true /\
  option_map delivered_on (row_of 1 d3) = Some (Some 1011) /\
  option_map delivered_on (row_of 1 d3) <> option_map delivered_on (row_of 1 d2).
Proof. vm_compute. repeat split; try reflexivity. discriminate. Qed.

(** C2, as the code has it: once [delivered_on] of a record is set, no
    call clears it, whatever the history of calls that follows; a single
    call leaves its value as it was unless it is a [MarkDelivered] on the
    record's own (destination, id) that meets no storage error, and such a
    call returns [true] and overwrites the value with its own time. *)
Theorem C2_delivered_on_stays_set_last_mark_wins (d : Database) (r : QueueRow) (t : Z) :
  wf d -> In r (queue d) -> delivered_on r = Some t ->
  (forall h r', In r' (queue (run_ops h d)) -> id r' = id r -> delivered_on r' <> None) /\
  (forall f now o r',
      In r' (queue (snd (apply_op f now o d))) -> id r' = id r ->
      delivered_on r' = Some t \/
      (f = NoFault /\ o = OpMark (chat_id r) (id r) /\ delivered_on r' = Some now)) /\
  (forall now,
      fst (MarkQueueItemAsDelivered NoFault now (chat_id r) (id r) d) = true /\
      row_of (id r) (snd (MarkQueueItemAsDelivered NoFault now (chat_id r) (id r) d))
      = Some (set_delivered_on now r)).
Proof.
  intros Hwf Hin Ht. split; [| split].
  - intros h. apply history_invariant.
    + intros f now o r0 r1 H H0.
      destruct (row_after_delivered_on _ _ _ _ _ H) as [E | [_ [_ E]]];
        rewrite E; [exact H0 | discriminate].
    + destruct Hwf as [_ Hle]. rewrite Forall_forall in Hle. now apply Hle.
    + intros r0 H0 E. rewrite (same_id_same_row d r0 r Hwf H0 Hin E), Ht. discriminate.
  - intros f now o r' Hin' E.
    pose proof (same_record_after f now o d r r' Hwf Hin Hin' E) as H.
    destruct (row_after_delivered_on _ _ _ _ _ H) as [E' | E'];
      [left; congruence | right; exact E'].
  - intros now. rewrite (MarkQueueItemAsDelivered_matches now d r Hin).
    split; [reflexivity |]. cbn [snd].
    apply (row_of_In _ (set_delivered_on now r)); [now apply wf_apply_op |].
    apply In_queue_after. left. exists r. split; [exact Hin |].
    simpl. now rewrite where_id_chat_self.
Qed.

Lemma sample_db_wf : wf sample_db.
Proof. exact (wf_run_ops sample_history OpenDb wf_OpenDb). Qed.

Lemma C2_delivered_on_stays_set_last_mark_wins_witness :
  (forall h r',
      In r' (queue (run_ops h sample_db)) ->
      id r' = id (mkQueueRow 5 42 "buy milk" 450 950 (Some 960) 1) ->
      delivered_on r' <> None) /\
  (forall f now o r',
      In r' (queue (snd (apply_op f now o sample_db))) ->
      id r' = id (mkQueueRow 5 42 "buy milk" 450 950 (Some 960) 1) ->
      delivered_on r' = Some 960 \/
      (f = NoFault /\ o = OpMark 42 5 /\ delivered_on r' = Some now)) /\
  (forall now,
      fst (MarkQueueItemAsDelivered NoFault now 42 5 sample_db) = true /\
      row_of 5 (snd (MarkQueueItemAsDelivered NoFault now 42 5 sample_db))
      = Some (set_delivered_on now (mkQueueRow 5 42 "buy milk" 450 950 (Some 960) 1))).
Proof.
  apply (C2_delivered_on_stays_set_last_mark_wins sample_db
           (mkQueueRow 5 42 "buy milk" 450 950 (Some 960) 1) 960).
  - exact sample_db_wf.
  - simpl. do 4 right. left. reflexivity.
  - reflexivity.
Defined.

(** ** Counting tries *)

Lemma DeliverableQueueItems_In (f : Fault) (now maxTries : Z) (d : Database) (q : QueueItem) :
  In q (elems (DeliverableQueueItems f now maxTries d)) ->
  exists r, In r (queue d)
            /\ where_deliverable (ceiling_in_force maxTries) now r = true
            /\ q = scan_item r.
Proof.
  destruct f; try (simpl; tauto).
  rewrite DeliverableQueueItems_ok. simpl. intros H.
  apply in_map_iff in H. destruct H as [r [<- H]].
  apply order_by_desc_In, filter_In in H. exists r. tauto.
Qed.

Lemma repeat_IncreaseNumTries (N : nat) :
  forall (d : Database) (r : QueueRow),
    wf d -> In r (queue d) ->
    let res := repeat_op N (IncreaseNumTries NoFault (chat_id r) (id r)) d in
    Forall (fun b => b = true) (fst res) /\ length (fst res) = N /\
    wf (snd res) /\ In (add_tries (Z.of_nat N) r) (queue (snd res)).
Proof.
  induction N as [| N IH]; intros d r Hwf Hin.
  - simpl. split; [constructor | split; [reflexivity | split; [exact Hwf |]]].
    unfold add_tries. rewrite Z.add_0_r. now destruct r.
  - cbn [repeat_op]. rewrite (IncreaseNumTries_matches 0 d r Hin).
    set (d' := snd (apply_op NoFault 0 (OpIncrease (chat_id r) (id r)) d)).
    assert (Hwf' : wf d') by now apply wf_apply_op.
    assert (Hin' : In (set_num_tries_plus_1 r) (queue d')).
    { apply In_queue_after. left. exists r. split; [exact Hin |].
      simpl. now rewrite where_id_chat_self. }
    specialize (IH d' (set_num_tries_plus_1 r) Hwf' Hin').
    cbn [id chat_id set_num_tries_plus_1] in IH.
    destruct (repeat_op N (IncreaseNumTries NoFault (chat_id r) (id r)) d')
      as [bs dN] eqn:E.
    cbn [fst snd] in *. destruct IH as [Hall [Hlen [HwfN HinN]]].
    split; [now constructor | split; [simpl; now rewrite Hlen | split; [exact HwfN |]]].
    replace (add_tries (Z.of_nat (S N)) r)
        with (add_tries (Z.of_nat N) (set_num_tries_plus_1 r)); [exact HinN |].
    unfold add_tries, set_num_tries_plus_1. simpl. f_equal. lia.
Qed.

(** C6, against the claim as stated: a reminder is enqueued and tried
    three times; with the ceiling argument 0 the listing filters with the
    default 10, so the record, with 3 tries against a ceiling of 0, is
    still listed. *)
Lemma C6_zero_ceiling_still_lists :
  let d1 := snd (Enqueue NoFault 400 7 "water plants" (time_Unix 900) OpenDb) in
  let res := repeat_op 3 (IncreaseNumTries NoFault 7 1) d1 in
  fst res = [true; true; true] /\
  row_of 1 (snd res) = Some (mkQueueRow 1 7 "water plants" 400 900 None 3) /\
  0 <= 3 /\
  map ID (elems (DeliverableQueueItems NoFault 2000 0 (snd res))) = [1].
Proof. vm_compute. repeat split; try reflexivity. discriminate. Qed.

(** C6, as the code has it: a record that [Enqueue] creates has
    [num_tries] 0; [N] calls of [IncrementTries] on it all succeed and
    leave [num_tries = N] with [delivered_on] still null; the record is
    then in no deliverable listing whose ceiling in force (the argument
    when positive, otherwise the default 10) is at most [N]; and through
    any history of calls the [num_tries] of a stored record never
    decreases. *)
Theorem C6_tries_counted_and_capped
    (d : Database) (now chatID : Z) (msg : string) (fireOn : Time) (N : nat) :
  wf d ->
  let i := next_rowid d in
  let d1 := snd (Enqueue NoFault now chatID msg fireOn d) in
  let res := repeat_op N (IncreaseNumTries NoFault chatID i) d1 in
  row_of i d1 = Some (mkQueueRow i chatID msg now (Unix fireOn) None 0) /\
  Forall (fun b => b = true) (fst res) /\ length (fst res) = N /\
  row_of i (snd res)
  = Some (mkQueueRow i chatID msg now (Unix fireOn) None (Z.of_nat N)) /\
  (forall f now' maxTries,
      ceiling_in_force maxTries <= Z.of_nat N ->
      ~ In i (map ID (elems (DeliverableQueueItems f now' maxTries (snd res))))) /\
  (forall f now' maxTries,
      0 < maxTries <= Z.of_nat N ->
      ~ In i (map ID (elems (DeliverableQueueItems f now' maxTries (snd res))))) /\
  (forall h r r',
      In r (queue d) -> In r' (queue (run_ops h d)) -> id r' = id r ->
      num_tries r <= num_tries r').
Proof.
  intros Hwf i d1 res.
  set (new := mkQueueRow i chatID msg now (Unix fireOn) None 0).
  assert (Hwf1 : wf d1) by apply (wf_apply_op NoFault now (OpEnqueue chatID msg fireOn) d Hwf).
  assert (Hin1 : In new (queue d1)).
  { unfold d1. rewrite Enqueue_appends. simpl. apply in_or_app. right. now left. }
  destruct (repeat_IncreaseNumTries N d1 new Hwf1 Hin1) as [Hall [Hlen [HwfN HinN]]].
  change (repeat_op N (IncreaseNumTries NoFault (chat_id new) (id new)) d1)
    with res in Hall, Hlen, HwfN, HinN.
  change (add_tries (Z.of_nat N) new)
    with (mkQueueRow i chatID msg now (Unix fireOn) None (0 + Z.of_nat N)) in HinN.
  rewrite Z.add_0_l in HinN.
  assert (Hcap : forall f now' maxTries,
             ceiling_in_force maxTries <= Z.of_nat N ->
             ~ In i (map ID (elems (DeliverableQueueItems f now' maxTries (snd res))))).
  { intros f now' maxTries Hc H. apply in_map_iff in H. destruct H as [q [Eq H]].
    apply DeliverableQueueItems_In in H. destruct H as [r [Hr [W ->]]].
    simpl in Eq.
    rewrite (same_id_same_row _ _ _ HwfN Hr HinN Eq) in W.
    apply where_deliverable_iff in W. destruct W as [_ [W _]]. simpl in W. lia. }
  split; [exact (row_of_In d1 new Hwf1 Hin1) |].
  split; [exact Hall |]. split; [exact Hlen |].
  split; [exact (row_of_In (snd res) _ HwfN HinN) |].
  split; [exact Hcap |]. split.
  - intros f now' maxTries [Hpos Hle]. apply Hcap.
    unfold ceiling_in_force. destruct (maxTries <=? 0) eqn:L; [| exact Hle].
    apply Z.leb_le in L. lia.
  - intros h r r' Hin Hin' E. revert r' Hin' E.
    apply (history_invariant (fun r' => num_tries r <= num_tries r')).
    + intros f0 now0 o r0 r1 H H0.
      destruct (row_after_num_tries _ _ _ _ _ H) as [E | [_ [_ E]]]; lia.
    + destruct Hwf as [_ Hle]. rewrite Forall_forall in Hle. now apply Hle.
    + intros r0 H0 E. rewrite (same_id_same_row d r0 r Hwf H0 Hin E). lia.
Qed.

Lemma C6_tries_counted_and_capped_witness :
  let i := next_rowid sample_db in
  let d1 := snd (Enqueue NoFault 1200 42 "renew pass" (time_Unix 1300) sample_db) in
  let res := repeat_op 4 (IncreaseNumTries NoFault 42 i) d1 in
  row_of i d1 = Some (mkQueueRow i 42 "renew pass" 1200 (Unix (time_Unix 1300)) None 0) /\
  Forall (fun b => b = true) (fst res) /\ length (fst res) = 4%nat /\
  row_of i (snd res)
  = Some (mkQueueRow i 42 "renew pass" 1200 (Unix (time_Unix 1300)) None (Z.of_nat 4)) /\
  (forall f now' maxTries,
      ceiling_in_force maxTries <= Z.of_nat 4 ->
      ~ In i (map ID (elems (DeliverableQueueItems f now' maxTries (snd res))))) /\
  (forall f now' maxTries,
      0 < maxTries <= Z.of_nat 4 ->
      ~ In i (map ID (elems (DeliverableQueueItems f now' maxTries (snd res))))) /\
  (forall h r r',
      In r (queue sample_db) -> In r' (queue (run_ops h sample_db)) -> id r' = id r ->
      num_tries r <= num_tries r').
Proof.
  apply (C6_tries_counted_and_capped sample_db 1200 42 "renew pass" (time_Unix 1300) 4).
  exact sample_db_wf.
Defined.

(** ** The delivery goroutines *)

Lemma task_run_then_Ask (t0 : Task) (cs : list (Call * bool)) (c : Call)
    (k : bool -> Task) (b : bool) :
  task_run t0 cs (Ask c k) -> task_run t0 (cs ++ [(c, b)]) (k b).
Proof.
  remember (Ask c k) as t eqn:E. induction 1 as [t | c' k' b' cs t' H IH | l k' cs t' H IH].
  - subst t. simpl. apply task_run_Ask, task_run_here.
  - simpl. apply task_run_Ask. now apply IH.
  - apply task_run_Say. now apply IH.
Qed.

Lemma task_run_then_Say (t0 : Task) (cs : list (Call * bool)) (line : string) (k : Task) :
  task_run t0 cs (Say line k) -> task_run t0 cs k.
Proof.
  remember (Say line k) as t eqn:E. induction 1 as [t | c' k' b' cs t' H IH | l k' cs t' H IH].
  - subst t. apply task_run_Say, task_run_here.
  - apply task_run_Ask. now apply IH.
  - apply task_run_Say. now apply IH.
Qed.

Lemma nth_error_set_nth_same {A} (l : list A) (i : nat) (x y : A) :
  nth_error l i = Some y -> nth_error (set_nth i x l) i = Some x.
Proof.
  revert i. induction l as [| z l IH]; intros [| i]; simpl; try discriminate.
  - reflexivity.
  - apply IH.
Qed.

Lemma nth_error_set_nth_other {A} (l : list A) (i j : nat) (x : A) :
  i <> j -> nth_error (set_nth i x l) j = nth_error l j.
Proof.
  revert i j. induction l as [| z l IH]; intros [| i] [| j] H; simpl;
    try reflexivity; try congruence.
  apply IH. congruence.
Qed.

Lemma set_nth_middle {A} (pre post : list A) (x y : A) :
  set_nth (length pre) x (pre ++ y :: post) = pre ++ x :: post.
Proof. induction pre as [| z pre IH]; simpl; [reflexivity | now rewrite IH]. Qed.

Lemma nth_error_middle {A} (pre post : list A) (y : A) :
  nth_error (pre ++ y :: post) (length pre) = Some y.
Proof. induction pre as [| z pre IH]; simpl; [reflexivity | exact IH]. Qed.

Lemma calls_of_snoc_same (i : nat) (tr : list Event) (c : Call) (b : bool) :
  calls_of i (tr ++ [mkEvent i c b]) = calls_of i tr ++ [(c, b)].
Proof.
  unfold calls_of. rewrite filter_app, map_app. simpl.
  now rewrite Nat.eqb_refl.
Qed.

Lemma calls_of_snoc_other (i j : nat) (tr : list Event) (c : Call) (b : bool) :
  i <> j -> calls_of j (tr ++ [mkEvent i c b]) = calls_of j tr.
Proof.
  intros H. unfold calls_of. rewrite filter_app, map_app. simpl.
  apply Nat.eqb_neq in H. rewrite H. simpl. apply app_nil_r.
Qed.

Section Pool.
Context {World : Type} (handle : Call -> World -> bool * World).

Lemma step_on_track (pool0 : list Task) (a b : Config World) :
  step handle a b -> on_track pool0 a -> on_track pool0 b.
Proof.
  intros Hstep Htrack j t0 Hj. destruct (Htrack j t0 Hj) as [t [Ht Hrun]].
  destruct Hstep as [i c k cfg Hi | i line k cfg Hi]; simpl.
  - destruct (Nat.eq_dec i j) as [-> | Hne].
    + rewrite calls_of_snoc_same. eexists. split.
      * eapply nth_error_set_nth_same. exact Hi.
      * apply task_run_then_Ask. congruence.
    + rewrite calls_of_snoc_other by exact Hne.
      rewrite nth_error_set_nth_other by exact Hne. eauto.
  - destruct (Nat.eq_dec i j) as [-> | Hne].
    + eexists. split.
      * eapply nth_error_set_nth_same. exact Hi.
      * apply (task_run_then_Say _ _ line). congruence.
    + rewrite nth_error_set_nth_other by exact Hne. eauto.
Qed.

Lemma steps_on_track (pool0 : list Task) (a b : Config World) :
  steps handle a b -> on_track pool0 a -> on_track pool0 b.
Proof.
  induction 1 as [cfg | a b c Hab Hbc IH]; [tauto |].
  intros H. apply IH. eapply step_on_track; eassumption.
Qed.

Lemma on_track_start (pool0 : list Task) (w : World) :
  on_track pool0 (mkConfig pool0 w []).
Proof. intros i t0 H. exists t0. split; [exact H | apply task_run_here]. Qed.

(** In a finished run every goroutine went from start to [Done] through
    exactly the calls the trace has for it. *)
Lemma finished_runs (pool0 : list Task) (w : World) (cfg : Config World) :
  steps handle (mkConfig pool0 w []) cfg -> finished cfg ->
  forall i t0, nth_error pool0 i = Some t0 -> task_run t0 (calls_of i (trace cfg)) Done.
Proof.
  intros Hsteps Hfin i t0 Hi.
  destruct (steps_on_track pool0 _ _ Hsteps (on_track_start pool0 w) i t0 Hi)
    as [t [Ht Hrun]].
  unfold finished in Hfin. rewrite Forall_forall in Hfin.
  rewrite (Hfin t) in Hrun; [exact Hrun |]. eapply nth_error_In. exact Ht.
Qed.

Lemma steps_trans (a b c : Config World) :
  steps handle a b -> steps handle b c -> steps handle a c.
Proof.
  induction 1 as [cfg | a b b' Hab Hbb' IH]; [tauto |].
  intros H. eapply steps_cons; [exact Hab | now apply IH].
Qed.

(** Running one goroutine to its end is a run of the pool. *)
Lemma run_task_steps (t : Task) :
  forall (pre post : list Task) (w : World) (tr : list Event),
    steps handle
          (mkConfig (pre ++ t :: post) w tr)
          (mkConfig (pre ++ Done :: post)
                    (snd (run_task handle (length pre) t w))
                    (tr ++ fst (run_task handle (length pre) t w))).
Proof.
  induction t as [| c k IH | line k IH]; intros pre post w tr; simpl.
  - rewrite app_nil_r. apply steps_refl.
  - destruct (handle c w) as [b w1] eqn:E.
    destruct (run_task handle (length pre) (k b) w1) as [evs w2] eqn:R. simpl.
    eapply steps_cons.
    + apply (step_Ask World handle (length pre) c k). simpl. apply nth_error_middle.
    + simpl. rewrite E. simpl. rewrite set_nth_middle.
      specialize (IH b pre post w1 (tr ++ [mkEvent (length pre) c b])).
      rewrite R in IH. simpl in IH. rewrite <- app_assoc in IH. exact IH.
  - eapply steps_cons.
    + apply (step_Say World handle (length pre) line k). simpl. apply nth_error_middle.
    + simpl. rewrite set_nth_middle. apply IH.
Qed.

(** The schedule [run_pool] is a run of the pool that finishes. *)
Lemma run_pool_steps (ts : list Task) :
  forall (pre : list Task) (w : World) (tr : list Event),
    steps handle
          (mkConfig (pre ++ ts) w tr)
          (mkConfig (pre ++ map (fun _ => Done) ts)
                    (snd (run_pool handle (length pre) ts w))
                    (tr ++ fst (run_pool handle (length pre) ts w))).
Proof.
  induction ts as [| t ts IH]; intros pre w tr; simpl.
  - rewrite !app_nil_r. apply steps_refl.
  - pose proof (run_task_steps t pre ts w tr) as H1.
    destruct (run_task handle (length pre) t w) as [evs w1].
    specialize (IH (pre ++ [Done]) w1 (tr ++ evs)).
    rewrite length_app, Nat.add_1_r in IH. simpl in IH.
    destruct (run_pool handle (S (length pre)) ts w1) as [evs' w2].
    simpl in *. rewrite <- !app_assoc in IH. simpl in IH.
    eapply steps_trans; eassumption.
Qed.

Lemma run_pool_finishes (ts : list Task) (w : World) :
  let cfg := mkConfig (map (fun _ => Done) ts)
                      (snd (run_pool handle 0 ts w))
                      (fst (run_pool handle 0 ts w)) in
  steps handle (mkConfig ts w []) cfg /\ finished cfg.
Proof.
  split.
  - exact (run_pool_steps ts [] w []).
  - unfold finished. simpl. apply Forall_forall. intros t H.
    apply in_map_iff in H. now destruct H as [_ [<- _]].
Qed.

(** Wherever the pool stands, it can be run to the end: no goroutine
    waits for another. *)
Lemma can_finish (cfg : Config World) :
  exists cfg', steps handle cfg cfg' /\ finished cfg'.
Proof.
  destruct cfg as [ts w tr].
  exists (mkConfig (map (fun _ => Done) ts)
                   (snd (run_pool handle 0 ts w))
                   (tr ++ fst (run_pool handle 0 ts w))).
  split.
  - exact (run_pool_steps ts [] w tr).
  - unfold finished. simpl. apply Forall_forall. intros t H.
    apply in_map_iff in H. now destruct H as [_ [<- _]].
Qed.

End Pool.

Lemma task_run_Done (cs : list (Call * bool)) (t : Task) :
  task_run Done cs t -> cs = [] /\ t = Done.
Proof. inversion 1. tauto. Qed.

(** The calls of one delivery, start to end: the send, the mark when the
    send went well, then the increase. *)
Lemma deliver_calls (q : QueueItem) (cs : list (Call * bool)) :
  task_run (deliver q) cs Done ->
  exists increased,
    cs = [ (Call_SendMessage (ChatID q) (Message q), false);
           (Call_IncreaseNumTries (ChatID q) (ID q), increased) ]
    \/ exists marked,
      cs = [ (Call_SendMessage (ChatID q) (Message q), true);
             (Call_MarkQueueItemAsDelivered (ChatID q) (ID q), marked);
             (Call_IncreaseNumTries (ChatID q) (ID q), increased) ].
Proof.
  assert (Tail : forall cs',
             task_run
               (Ask (Call_IncreaseNumTries (ChatID q) (ID q))
                    (fun increased =>
                       if negb increased
                       then Say "*** failed to increase num tries" Done
                       else Done))
               cs' Done ->
             exists increased,
               cs' = [(Call_IncreaseNumTries (ChatID q) (ID q), increased)]).
  { intros cs' H. inversion H as [| c k b cs1 t' H1 |]; subst; clear H.
    exists b. f_equal. destruct b; simpl in H1.
    - now apply task_run_Done in H1.
    - inversion H1 as [| | line k cs2 t' H2]; subst.
      now apply task_run_Done in H2. }
  unfold deliver. intros H.
  inversion H as [| c k sent cs1 t' H1 |]; subst; clear H.
  destruct sent; simpl in H1.
  - inversion H1 as [| c k marked cs2 t' H2 |]; subst; clear H1.
    destruct marked; simpl in H2.
    + destruct (Tail _ H2) as [increased ->]. exists increased. right. now exists true.
    + inversion H2 as [| | line k cs3 t' H3]; subst; clear H2.
      destruct (Tail _ H3) as [increased ->]. exists increased. right. now exists false.
  - inversion H1 as [| | line k cs2 t' H2]; subst; clear H1.
    destruct (Tail _ H2) as [increased ->]. exists increased. now left.
Qed.

Lemma call_eqb_refl (c : Call) : call_eqb c c = true.
Proof. destruct c; simpl; now rewrite ?Z.eqb_refl, ?String.eqb_refl. Qed.

(** The candidates of a cycle and the goroutines started for them. *)
Lemma processQueue_goroutines
    (f : Fault) (now maxTries : Z) (verbose : bool) (d : Database) (i : nat) (q : QueueItem) :
  nth_error (elems (DeliverableQueueItems f now maxTries d)) i = Some q ->
  nth_error (snd (processQueue f now maxTries verbose d)) i = Some (deliver q).
Proof. intros H. simpl. now apply map_nth_error. Qed.

(** C5: in every finished run of the goroutines of one cycle, whatever the
    scheduler and whatever the notifier and the store answer, the goroutine
    of each candidate has called [IncrementTries] for its (destination, id)
    exactly once, and has called [MarkDelivered] for it once when its send
    succeeded and not at all when its send failed; it has made no other
    store call. *)
Theorem C5_one_increment_mark_iff_sent
    (World : Type) (handle : Call -> World -> bool * World)
    (f : Fault) (now maxTries : Z) (verbose : bool) (d : Database)
    (w : World) (cfg : Config World) (i : nat) (q : QueueItem) :
  steps handle (mkConfig (snd (processQueue f now maxTries verbose d)) w []) cfg ->
  finished cfg ->
  nth_error (elems (DeliverableQueueItems f now maxTries d)) i = Some q ->
  let cs := calls_of i (trace cfg) in
  count_call (Call_IncreaseNumTries (ChatID q) (ID q)) cs = 1%nat /\
  (exists ok,
      sent_Ok cs = Some ok /\
      count_call (Call_MarkQueueItemAsDelivered (ChatID q) (ID q)) cs
      = if ok then 1%nat else 0%nat) /\
  (forall c b,
      In (c, b) cs ->
      c = Call_SendMessage (ChatID q) (Message q) \/
      c = Call_MarkQueueItemAsDelivered (ChatID q) (ID q) \/
      c = Call_IncreaseNumTries (ChatID q) (ID q)).
Proof.
  intros Hsteps Hfin Hq cs.
  pose proof (finished_runs handle _ w cfg Hsteps Hfin i (deliver q)
                (processQueue_goroutines f now maxTries verbose d i q Hq)) as Hrun.
  fold cs in Hrun. apply deliver_calls in Hrun.
  destruct Hrun as [increased [-> | [marked ->]]].
  - split; [| split].
    + unfold count_call. simpl. now rewrite !Z.eqb_refl.
    + exists false. split; [reflexivity |]. reflexivity.
    + simpl. intros c b [[= <- _] | [[= <- _] | []]]; auto.
  - split; [| split].
    + unfold count_call. simpl. now rewrite !Z.eqb_refl.
    + exists true. split; [reflexivity |].
      unfold count_call. simpl. now rewrite !Z.eqb_refl.
    + simpl. intros c b [[= <- _] | [[= <- _] | [[= <- _] | []]]]; auto.
Qed.

Example sample_cycle_trace :
  trace sample_cycle =
  [ mkEvent 0 (Call_SendMessage 42 "call home") true;
    mkEvent 0 (Call_MarkQueueItemAsDelivered 42 2) true;
    mkEvent 0 (Call_IncreaseNumTries 42 2) true;
    mkEvent 1 (Call_SendMessage 42 "pay rent") false;
    mkEvent 1 (Call_IncreaseNumTries 42 1) true ].
Proof. reflexivity. Qed.

Example sample_cycle_rows :
  queue (out_db (world sample_cycle)) =
  [ mkQueueRow 1 42 "pay rent" 100 1000 None 1;
    mkQueueRow 2 42 "call home" 200 1500 (Some 2000) 1;
    mkQueueRow 3 7 "stand-up" 300 5000 None 0;
    mkQueueRow 4 7 "water plants" 400 900 None 3;
    mkQueueRow 5 42 "buy milk" 450 950 (Some 960) 1 ].
Proof. reflexivity. Qed.

Lemma C5_one_increment_mark_iff_sent_witness :
  let q := scan_item (mkQueueRow 1 42 "pay rent" 100 1000 None 0) in
  let cs := calls_of 1 (trace sample_cycle) in
  count_call (Call_IncreaseNumTries (ChatID q) (ID q)) cs = 1%nat /\
  (exists ok,
      sent_Ok cs = Some ok /\
      count_call (Call_MarkQueueItemAsDelivered (ChatID q) (ID q)) cs
      = if ok then 1%nat else 0%nat) /\
  (forall c b,
      In (c, b) cs ->
      c = Call_SendMessage (ChatID q) (Message q) \/
      c = Call_MarkQueueItemAsDelivered (ChatID q) (ID q) \/
      c = Call_IncreaseNumTries (ChatID q) (ID q)).
Proof.
  apply (C5_one_increment_mark_iff_sent Outside outside_handle
           NoFault 2000 3 false sample_db sample_outside sample_cycle 1).
  - exact (proj1 (run_pool_finishes outside_handle
                    (snd (processQueue NoFault 2000 3 false sample_db)) sample_outside)).
  - exact (proj2 (run_pool_finishes outside_handle
                    (snd (processQueue NoFault 2000 3 false sample_db)) sample_outside)).
  - reflexivity.
Defined.

(** ** The whole cycle *)

Lemma NoDup_map_filter {A B} (g : A -> B) (p : A -> bool) (l : list A) :
  NoDup (map g l) -> NoDup (map g (filter p l)).
Proof.
  induction l as [| x l IH]; simpl; [tauto |].
  intros H. apply NoDup_cons_iff in H. destruct H as [Hx H].
  destruct (p x); simpl; [| now apply IH].
  constructor; [| now apply IH].
  intros Hin. apply Hx. apply in_map_iff in Hin. destruct Hin as [y [<- Hy]].
  apply filter_In in Hy. apply in_map. tauto.
Qed.

(** No two candidates of a cycle have the same id. *)
Lemma candidates_distinct (f : Fault) (now maxTries : Z) (d : Database) :
  wf d -> NoDup (map ID (elems (DeliverableQueueItems f now maxTries d))).
Proof.
  intros [Hnd _]. destruct f; try constructor.
  rewrite DeliverableQueueItems_ok. simpl. rewrite map_map. simpl.
  eapply Permutation_NoDup.
  - apply Permutation_map, order_by_desc_perm.
  - now apply NoDup_map_filter.
Qed.

Section Cycle.
Context {World : Type} (handle : Call -> World -> bool * World).

Lemma set_nth_length {A} (i : nat) (x : A) (l : list A) :
  length (set_nth i x l) = length l.
Proof.
  revert i. induction l as [| y l IH]; intros [| i]; simpl; try reflexivity.
  now rewrite IH.
Qed.

(** Only goroutines of the pool appear in a trace. *)
Lemma steps_tasks_in_pool (a b : Config World) :
  steps handle a b ->
  Forall (fun e => (ev_task e < length (pool a))%nat) (trace a) ->
  length (pool b) = length (pool a) /\
  Forall (fun e => (ev_task e < length (pool a))%nat) (trace b).
Proof.
  induction 1 as [cfg | a b c Hab Hbc IH]; [tauto |].
  intros Ha.
  assert (L : length (pool b) = length (pool a))
    by (destruct Hab; simpl; apply set_nth_length).
  rewrite L in IH. destruct IH as [Lc Hc]; [| split; [congruence | exact Hc]].
  destruct Hab as [i c0 k cfg Hi | i line k cfg Hi]; simpl; [| exact Ha].
  apply Forall_app. split; [exact Ha |].
  constructor; [| constructor]. simpl.
  apply nth_error_Some. congruence.
Qed.

Lemma In_calls_of (e : Event) (tr : list Event) :
  In e tr -> In (ev_call e, ev_result e) (calls_of (ev_task e) tr).
Proof.
  intros H. unfold calls_of.
  apply (in_map (fun e0 => (ev_call e0, ev_result e0))).
  apply filter_In. split; [exact H | apply Nat.eqb_refl].
Qed.

(** Calls that only goroutine [i] makes are counted the same in its own
    calls and in the whole trace. *)
Lemma count_own_calls (c : Call) (i : nat) (tr : list Event) :
  (forall e, In e tr -> ev_call e = c -> ev_task e = i) ->
  count_call c (all_calls tr) = count_call c (calls_of i tr).
Proof.
  unfold count_call, all_calls, calls_of.
  induction tr as [| e tr IH]; intros H; [reflexivity |].
  assert (IH' : forall e0, In e0 tr -> ev_call e0 = c -> ev_task e0 = i)
    by (intros e0 H0; apply H; now right).
  specialize (IH IH'). simpl.
  destruct (call_eqb (ev_call e) c) eqn:E.
  - assert (ev_call e = c) as Ec.
    { clear - E. destruct (ev_call e), c; simpl in E; try discriminate;
        apply andb_true_iff in E; destruct E as [E1 E2];
        apply Z.eqb_eq in E1; try apply Z.eqb_eq in E2;
        try apply String.eqb_eq in E2; congruence. }
    rewrite (H e (or_introl eq_refl) Ec), Nat.eqb_refl. simpl.
    rewrite Ec, call_eqb_refl. simpl. now rewrite IH.
  - destruct (Nat.eqb (ev_task e) i); simpl; [rewrite E |]; exact IH.
Qed.

(** Over the whole cycle, whatever the other goroutines did: one
    [IncrementTries] for each candidate, and one [MarkDelivered] for it
    exactly when its own send succeeded. *)
Lemma cycle_calls_per_candidate
    (f : Fault) (now maxTries : Z) (verbose : bool) (d : Database)
    (w : World) (cfg : Config World) (i : nat) (q : QueueItem) :
  wf d ->
  steps handle (mkConfig (snd (processQueue f now maxTries verbose d)) w []) cfg ->
  finished cfg ->
  nth_error (elems (DeliverableQueueItems f now maxTries d)) i = Some q ->
  count_call (Call_IncreaseNumTries (ChatID q) (ID q)) (all_calls (trace cfg)) = 1%nat /\
  exists ok,
    sent_Ok (calls_of i (trace cfg)) = Some ok /\
    count_call (Call_MarkQueueItemAsDelivered (ChatID q) (ID q)) (all_calls (trace cfg))
    = if ok then 1%nat else 0%nat.
Proof.
  intros Hwf Hsteps Hfin Hq.
  set (listing := elems (DeliverableQueueItems f now maxTries d)) in *.
  assert (Own : forall e c,
             In e (trace cfg) -> ev_call e = c ->
             c = Call_IncreaseNumTries (ChatID q) (ID q) \/
             c = Call_MarkQueueItemAsDelivered (ChatID q) (ID q) ->
             ev_task e = i).
  { intros e c He Ec Hc.
    destruct (steps_tasks_in_pool _ _ Hsteps (Forall_nil _)) as [_ Hall].
    rewrite Forall_forall in Hall. specialize (Hall e He). simpl in Hall.
    rewrite length_map in Hall. fold listing in Hall.
    destruct (nth_error listing (ev_task e)) as [q' |] eqn:Hq';
      [| apply nth_error_None in Hq'; lia].
    pose proof (finished_runs handle _ w cfg Hsteps Hfin (ev_task e) (deliver q')
                  (processQueue_goroutines f now maxTries verbose d _ q' Hq')) as Hrun.
    apply deliver_calls in Hrun. apply In_calls_of in He. rewrite Ec in He.
    assert (ID q' = ID q) as Eid.
    { destruct Hrun as [increased [R | [marked R]]]; rewrite R in He; simpl in He;
        destruct Hc as [-> | ->];
        repeat (destruct He as [He | He]; [inversion He; congruence |]);
        destruct He. }
    pose proof (candidates_distinct f now maxTries d Hwf) as Hnd. fold listing in Hnd.
    apply (proj1 (NoDup_nth_error _) Hnd).
    - rewrite length_map. apply nth_error_Some. congruence.
    - rewrite !nth_error_map, Hq', Hq. simpl. congruence. }
  pose proof (finished_runs handle _ w cfg Hsteps Hfin i (deliver q)
                (processQueue_goroutines f now maxTries verbose d i q Hq)) as Hrun.
  apply deliver_calls in Hrun.
  rewrite !(count_own_calls _ i) by (intros e He Ec; apply (Own e _ He Ec); auto).
  destruct Hrun as [increased [-> | [marked ->]]].
  - split; [unfold count_call; simpl; now rewrite !Z.eqb_refl |].
    exists false. split; reflexivity.
  - split; [unfold count_call; simpl; now rewrite !Z.eqb_refl |].
    exists true. split; [reflexivity |].
    unfold count_call. simpl. now rewrite !Z.eqb_refl.
Qed.

End Cycle.

(** * Further properties of the store *)

(** ** The log *)

Lemma fold_append {A B} (g : A -> B) (rows : list A) (l0 : list B) :
  fold_left (fun acc r => append acc (g r)) rows (slice_of l0)
  = slice_of (l0 ++ map g rows).
Proof.
  revert l0. induction rows as [| r rows IH]; intros l0; simpl.
  - now rewrite app_nil_r.
  - unfold append at 2. simpl. rewrite IH, <- app_assoc. reflexivity.
Qed.

Lemma GetLogs_ok (latestN : Z) (d : Database) :
  GetLogs NoFault latestN d
  = slice_of (map scan_log (sql_limit latestN (order_by_desc log_id (logs d)))).
Proof. unfold GetLogs. apply (fold_append scan_log). Qed.

Lemma insert_desc_smallest {A} (key : A -> Z) (x : A) (l : list A) :
  Forall (fun y => key x < key y) l -> insert_desc key x l = l ++ [x].
Proof.
  induction 1 as [| y l Hy Hl IH]; simpl; [reflexivity |].
  destruct (key y <? key x) eqn:E; [apply Z.ltb_lt in E; lia |].
  now rewrite IH.
Qed.

(** On rows in growing key order, [order by key desc] is the reverse. *)
Lemma order_by_desc_growing {A} (key : A -> Z) (l : list A) :
  StronglySorted (fun a b => key a < key b) l -> order_by_desc key l = rev l.
Proof.
  induction 1 as [| x l Hs IH Hall]; [reflexivity |].
  change (order_by_desc key (x :: l)) with (insert_desc key x (order_by_desc key l)).
  rewrite IH. simpl. apply insert_desc_smallest. apply Forall_rev. exact Hall.
Qed.

Lemma logs_wf_OpenDb : logs_wf OpenDb.
Proof. split; constructor. Qed.

Lemma StronglySorted_snoc {A} (R : A -> A -> Prop) (l : list A) (x : A) :
  StronglySorted R l -> Forall (fun y => R y x) l -> StronglySorted R (l ++ [x]).
Proof.
  induction 1 as [| y l Hs IH Hall]; intros H; simpl.
  - repeat constructor.
  - apply Forall_cons_iff in H. destruct H as [Hy H].
    constructor; [now apply IH |].
    apply Forall_app. split; [exact Hall | now repeat constructor].
Qed.

Lemma logs_wf_saveLog (f : Fault) (now : Z) (typ msg : string) (d : Database) :
  logs_wf d -> logs_wf (saveLog f now typ msg d).
Proof.
  intros [Hs Hle]. destruct f; try (split; assumption).
  split; simpl.
  - apply StronglySorted_snoc; [exact Hs |].
    eapply Forall_impl; [| exact Hle]. simpl. intros; lia.
  - apply Forall_app. split.
    + eapply Forall_impl; [| exact Hle]. simpl. intros; lia.
    + repeat constructor. simpl. lia.
Qed.

Lemma logs_after (f : Fault) (now : Z) (o : Op) (d : Database) :
  match o with
  | OpSaveLog typ msg => True
  | _ => logs (snd (apply_op f now o d)) = logs d
         /\ logs_seq (snd (apply_op f now o d)) = logs_seq d
  end.
Proof.
  destruct o as [typ msg | chatID msg fireOn | chatID queueID | chatID queueID
                 | chatID queueID]; [exact I | | | |]; destruct f; try (split; reflexivity).
  unfold apply_op. rewrite Enqueue_appends. split; reflexivity.
Qed.

Lemma logs_wf_apply_op (f : Fault) (now : Z) (o : Op) (d : Database) :
  logs_wf d -> logs_wf (snd (apply_op f now o d)).
Proof.
  intros H. pose proof (logs_after f now o d) as L.
  destruct o; [now apply logs_wf_saveLog | | | |];
    destruct L as [L1 L2]; unfold logs_wf; rewrite L1, L2; exact H.
Qed.

Lemma reachable_logs_wf (h : list (Fault * Z * Op)) : logs_wf (run_ops h OpenDb).
Proof.
  assert (G : forall d, logs_wf d -> logs_wf (run_ops h d)).
  { induction h as [| [[f now] o] h IH]; intros d H; simpl; [exact H |].
    now apply IH, logs_wf_apply_op. }
  apply G, logs_wf_OpenDb.
Qed.

Lemma GetLogs_growing (d : Database) (latestN : Z) :
  logs_wf d -> 0 <= latestN ->
  GetLogs NoFault latestN d
  = slice_of (map scan_log (firstn (Z.to_nat latestN) (rev (logs d)))).
Proof.
  intros [Hs _] Hn.
  rewrite GetLogs_ok, order_by_desc_growing by exact Hs.
  unfold sql_limit. destruct (latestN <? 0) eqn:L; [| reflexivity].
  apply Z.ltb_lt in L. lia.
Qed.

(** X1: without a storage error, [GetLogs(n)] for [n >= 0] returns the
    [n] most recently saved log entries (all of them when fewer are
    stored), the latest first. *)
Theorem X1_GetLogs_latest_first (d : Database) (latestN : Z) :
  logs_wf d -> 0 <= latestN ->
  GetLogs NoFault latestN d
  = slice_of (map scan_log (firstn (Z.to_nat latestN) (rev (logs d)))) /\
  len (GetLogs NoFault latestN d) = Z.min latestN (Z.of_nat (length (logs d))).
Proof.
  intros Hwf Hn. pose proof (GetLogs_growing d latestN Hwf Hn) as E.
  split; [exact E |].
  rewrite E. unfold len. simpl.
  rewrite length_map, length_firstn, length_rev. lia.
Qed.

(** X2: a log entry saved without a storage error is the first one
    [GetLogs(n)] returns for every [n >= 1], with the type, the message and
    the time it was saved with; the entries behind it are the ones
    [GetLogs(n - 1)] returned before. *)
Theorem X2_saved_log_is_read_back_first
    (d : Database) (now : Z) (typ msg : string) (latestN : Z) :
  logs_wf d -> 1 <= latestN ->
  elems (GetLogs NoFault latestN (saveLog NoFault now typ msg d))
  = mkLog typ msg (time_Unix now) :: elems (GetLogs NoFault (latestN - 1) d).
Proof.
  intros Hwf Hn.
  rewrite (GetLogs_growing _ latestN (logs_wf_saveLog NoFault now typ msg d Hwf))
    by lia.
  rewrite (GetLogs_growing d (latestN - 1) Hwf) by lia.
  simpl. rewrite rev_app_distr. simpl.
  replace (Z.to_nat latestN) with (S (Z.to_nat (latestN - 1))) by lia.
  reflexivity.
Qed.

(** ** What the mutating calls report and touch *)

Lemma update_no_match (w : QueueRow -> bool) (g : QueueRow -> QueueRow)
    (rows : list QueueRow) :
  filter w rows = [] -> map (fun r => if w r then g r else r) rows = rows.
Proof.
  induction rows as [| x rows IH]; simpl; [reflexivity |].
  destruct (w x); [discriminate |]. intros H. now rewrite IH.
Qed.

Lemma no_rows_affected (w : QueueRow -> bool) (rows : list QueueRow) :
  (Z.of_nat (length (filter w rows)) <=? 0) = true -> filter w rows = [].
Proof.
  intros H. apply Z.leb_le in H.
  destruct (filter w rows); [reflexivity | simpl in H; lia].
Qed.

(** X3: whenever [Enqueue], [DeleteQueueItem], [IncreaseNumTries] or
    [MarkQueueItemAsDelivered] returns [false], because of a storage error
    or because no row matched, the database is exactly as it was before
    the call. *)
Theorem X3_false_means_untouched (f : Fault) (now : Z) (o : Op) (d : Database) :
  fst (apply_op f now o d) = false -> snd (apply_op f now o d) = d.
Proof.
  destruct o as [typ msg | chatID msg fireOn | chatID queueID | chatID queueID
                 | chatID queueID];
    destruct f; simpl; try discriminate; try reflexivity.
  - destruct (_ <=? 0) eqn:E; [| discriminate]. intros _.
    apply no_rows_affected in E. rewrite update_no_match by exact E.
    apply with_queue_same.
  - destruct (_ <=? 0) eqn:E; [| discriminate]. intros _.
    apply no_rows_affected in E. rewrite update_no_match by exact E.
    apply with_queue_same.
Qed.

Lemma X3_false_means_untouched_witness :
  snd (apply_op NoFault 2000 (OpMark 99 1) sample_db) = sample_db.
Proof. apply (X3_false_means_untouched NoFault 2000 (OpMark 99 1) sample_db). reflexivity. Defined.

Lemma rows_affected_iff (queueID chatID : Z) (rows : list QueueRow) :
  (Z.of_nat (length (filter (where_id_chat queueID chatID) rows)) <=? 0) = false <->
  exists r, In r rows /\ id r = queueID /\ chat_id r = chatID.
Proof.
  split.
  - intros H. apply Z.leb_gt in H.
    destruct (filter (where_id_chat queueID chatID) rows) as [| r l] eqn:E;
      [simpl in H; lia |].
    assert (In r (filter (where_id_chat queueID chatID) rows)) as Hin
        by (rewrite E; now left).
    apply filter_In in Hin. destruct Hin as [Hin W].
    apply where_id_chat_iff in W. eauto.
  - intros [r [Hin [Hi Hc]]]. apply (update_matches _ _ r Hin).
    now apply where_id_chat_iff.
Qed.

(** X4: without a storage error, [IncreaseNumTries] and
    [MarkQueueItemAsDelivered] return [true] exactly when a stored row has
    both the given id and the given destination. *)
Theorem X4_update_reports_a_match (now chatID queueID : Z) (d : Database) :
  (fst (IncreaseNumTries NoFault chatID queueID d) = true <->
   exists r, In r (queue d) /\ id r = queueID /\ chat_id r = chatID) /\
  (fst (MarkQueueItemAsDelivered NoFault now chatID queueID d) = true <->
   exists r, In r (queue d) /\ id r = queueID /\ chat_id r = chatID).
Proof.
  pose proof (rows_affected_iff queueID chatID (queue d)) as R.
  split; simpl;
    destruct (Z.of_nat (length (filter (where_id_chat queueID chatID) (queue d))) <=? 0);
    simpl; split; intros H; try discriminate; try reflexivity;
    try (now apply R); apply R in H; discriminate.
Qed.

Lemma filter_filter_neg {A} (p w : A -> bool) (l : list A) :
  (forall x, w x = true -> p x = false) ->
  filter p (filter (fun x => negb (w x)) l) = filter p l.
Proof.
  intros H. induction l as [| x l IH]; simpl; [reflexivity |].
  destruct (w x) eqn:W; simpl.
  - rewrite (H x W). exact IH.
  - destruct (p x); now rewrite IH.
Qed.

Lemma filter_map_update {A} (p w : A -> bool) (g : A -> A) (l : list A) :
  (forall x, w x = true -> p x = false /\ p (g x) = false) ->
  filter p (map (fun x => if w x then g x else x) l) = filter p l.
Proof.
  intros H. induction l as [| x l IH]; simpl; [reflexivity |].
  destruct (w x) eqn:W.
  - destruct (H x W) as [-> ->]. exact IH.
  - destruct (p x); now rewrite IH.
Qed.

Lemma apply_op_others (f : Fault) (now : Z) (o : Op) (chatID : Z) (d : Database) :
  op_chat o = Some chatID ->
  rows_of_others chatID (snd (apply_op f now o d)) = rows_of_others chatID d.
Proof.
  assert (W : forall queueID x,
             where_id_chat queueID chatID x = true ->
             negb (chat_id x =? chatID) = false).
  { intros queueID x H. apply where_id_chat_iff in H. destruct H as [_ ->].
    now rewrite Z.eqb_refl. }
  unfold rows_of_others.
  destruct o as [typ msg | c msg fireOn | c queueID | c queueID | c queueID];
    simpl; try discriminate; intros [= ->]; destruct f; try reflexivity.
  - rewrite Enqueue_appends. simpl. rewrite filter_app. simpl.
    rewrite Z.eqb_refl. simpl. apply app_nil_r.
  - simpl. apply filter_filter_neg. apply W.
  - simpl. apply filter_map_update. intros x H. split; [now apply (W queueID) |].
    simpl. now apply (W queueID).
  - simpl. apply filter_map_update. intros x H. split; [now apply (W queueID) |].
    simpl. now apply (W queueID).
Qed.

(** X5: a call made for one destination never adds, removes or changes a
    row of another destination, whatever id it is given and whatever the
    storage outcome. *)
Theorem X5_other_destinations_untouched
    (f : Fault) (now : Z) (o : Op) (chatID : Z) (d : Database) :
  op_chat o = Some chatID ->
  rows_of_others chatID (snd (apply_op f now o d)) = rows_of_others chatID d.
Proof. apply apply_op_others. Qed.

Lemma X5_other_destinations_untouched_witness :
  rows_of_others 42 (snd (apply_op NoFault 2000 (OpDelete 42 4) sample_db))
  = rows_of_others 42 sample_db.
Proof.
  apply (X5_other_destinations_untouched NoFault 2000 (OpDelete 42 4) 42 sample_db).
  reflexivity.
Defined.

Lemma sample_logs_db_wf : logs_wf sample_logs_db.
Proof.
  exact (reachable_logs_wf
           [ (NoFault, 10, OpSaveLog "log" "started");
             (NoFault, 20, OpSaveLog "err" "failed to edit message text");
             (ExecFails, 25, OpSaveLog "log" "lost");
             (NoFault, 30, OpSaveLog "log" "stopped") ]).
Qed.

Example sample_logs_db_latest_two :
  elems (GetLogs NoFault 2 sample_logs_db)
  = [ mkLog "log" "stopped" (time_Unix 30);
      mkLog "err" "failed to edit message text" (time_Unix 20) ].
Proof. reflexivity. Qed.

Lemma X1_GetLogs_latest_first_witness :
  GetLogs NoFault 2 sample_logs_db
  = slice_of (map scan_log (firstn (Z.to_nat 2) (rev (logs sample_logs_db)))) /\
  len (GetLogs NoFault 2 sample_logs_db)
  = Z.min 2 (Z.of_nat (length (logs sample_logs_db))).
Proof.
  apply (X1_GetLogs_latest_first sample_logs_db 2).
  - exact sample_logs_db_wf.
  - discriminate.
Defined.

Lemma X2_saved_log_is_read_back_first_witness :
  elems (GetLogs NoFault 3 (saveLog NoFault 40 "err" "failed to answer" sample_logs_db))
  = mkLog "err" "failed to answer" (time_Unix 40)
    :: elems (GetLogs NoFault (3 - 1) sample_logs_db).
Proof.
  apply (X2_saved_log_is_read_back_first sample_logs_db 40 "err" "failed to answer" 3).
  - exact sample_logs_db_wf.
  - discriminate.
Defined.

(** ** Records over their life *)

Lemma where_id_chat_flip (queueID chatID : Z) (r : QueueRow) :
  where_id_chat queueID chatID r = (chatID =? chat_id r) && (queueID =? id r).
Proof.
  unfold where_id_chat.
  now rewrite (Z.eqb_sym chatID), (Z.eqb_sym queueID), andb_comm.
Qed.

Lemma row_after_deleted (f : Fault) (now : Z) (o : Op) (r : QueueRow) :
  row_after f now o r = None <-> is_delete (chat_id r) (id r) (f, now, o) = true.
Proof.
  destruct f, o as [typ msg | c msg fireOn | c q | c q | c q]; simpl;
    try (split; discriminate).
  rewrite where_id_chat_flip.
  destruct ((c =? chat_id r) && (q =? id r)); split; congruence.
Qed.

Lemma row_after_tries (f : Fault) (now : Z) (o : Op) (r r' : QueueRow) :
  row_after f now o r = Some r' ->
  num_tries r' = num_tries r
                 + (if is_increase (chat_id r) (id r) (f, now, o) then 1 else 0).
Proof.
  destruct f, o as [typ msg | c msg fireOn | c q | c q | c q]; simpl;
    try (intros [= <-]; lia);
    rewrite where_id_chat_flip;
    destruct ((c =? chat_id r) && (q =? id r)); intros [= <-]; simpl; lia.
Qed.

Lemma In_listing (p : QueueRow -> bool) (rows : list QueueRow) (i : Z) :
  In i (map ID (map scan_item (order_by_desc enqueued_on (filter p rows)))) ->
  exists r, In r rows /\ p r = true /\ id r = i.
Proof.
  intros H. apply in_map_iff in H. destruct H as [q [<- H]].
  apply in_map_iff in H. destruct H as [r [<- H]].
  apply order_by_desc_In, filter_In in H. exists r. tauto.
Qed.

Lemma listed_id_stored (f f' : Fault) (now maxTries chatID : Z) (d : Database) (i : Z) :
  In i (map ID (elems (DeliverableQueueItems f now maxTries d))) \/
  In i (map ID (elems (UndeliveredQueueItems f' chatID d))) ->
  exists r, In r (queue d) /\ id r = i /\ delivered_on r = None.
Proof.
  intros [H | H].
  - destruct f; try (simpl in H; tauto).
    rewrite DeliverableQueueItems_ok in H. apply In_listing in H.
    destruct H as [r [Hin [W E]]]. apply where_deliverable_iff in W.
    exists r. unfold deliverable in W. tauto.
  - destruct f'; try (simpl in H; tauto).
    rewrite UndeliveredQueueItems_ok in H. apply In_listing in H.
    destruct H as [r [Hin [W E]]]. apply where_undelivered_iff in W.
    exists r. unfold pending in W. tauto.
Qed.

(** X6: deleting a stored record by its own (destination, id) removes that
    row and no other, and the id never comes back: after any later history
    of calls no row carries it and neither listing shows it. *)
Theorem X6_deleted_record_is_gone_for_good (d : Database) (r : QueueRow) :
  wf d -> In r (queue d) ->
  let d' := snd (DeleteQueueItem NoFault (chat_id r) (id r) d) in
  Permutation (queue d) (r :: queue d') /\
  (forall h r', In r' (queue (run_ops h d')) -> id r' <> id r) /\
  (forall h f f' now maxTries chatID,
      ~ In (id r) (map ID (elems (DeliverableQueueItems f now maxTries (run_ops h d')))) /\
      ~ In (id r) (map ID (elems (UndeliveredQueueItems f' chatID (run_ops h d'))))).
Proof.
  intros Hwf Hin d'.
  assert (Q : queue d' = filter (fun x => negb (where_id_chat (id r) (chat_id r) x))
                                (queue d)) by reflexivity.
  assert (Same : forall x, In x (queue d) ->
                           where_id_chat (id r) (chat_id r) x = true -> x = r).
  { intros x Hx W. apply where_id_chat_iff in W.
    apply (same_id_same_row d); tauto. }
  assert (Gone : forall h r', In r' (queue (run_ops h d')) -> id r' <> id r).
  { intros h r' Hr' E.
    refine (history_invariant (fun _ => False) (id r) _ h d' _ _ r' Hr' E).
    - intros f now o r0 r1 _ F. exact F.
    - destruct Hwf as [_ Hle]. rewrite Forall_forall in Hle.
      apply (Hle r Hin).
    - intros x Hx Ex. rewrite Q in Hx. apply filter_In in Hx.
      destruct Hx as [Hx W].
      rewrite (same_id_same_row d x r Hwf Hx Hin Ex), where_id_chat_self in W.
      discriminate. }
  split; [| split; [exact Gone |]].
  - rewrite Q. destruct Hwf as [Hnd _]. clear - Hnd Hin Same.
    induction (queue d) as [| x l IH]; [destruct Hin |].
    simpl in Hnd. apply NoDup_cons_iff in Hnd. destruct Hnd as [Hx Hnd].
    simpl. destruct (where_id_chat (id r) (chat_id r) x) eqn:W; simpl.
    + rewrite (Same x (or_introl eq_refl) W). constructor.
      rewrite filter_none; [reflexivity |].
      destruct (filter (where_id_chat (id r) (chat_id r)) l) as [| y l'] eqn:F;
        [reflexivity |].
      assert (In y (filter (where_id_chat (id r) (chat_id r)) l)) as Hy
          by (rewrite F; now left).
      apply filter_In in Hy. destruct Hy as [Hy Wy].
      exfalso. apply Hx.
      rewrite (Same x (or_introl eq_refl) W), <- (Same y (or_intror Hy) Wy).
      now apply in_map.
    + destruct Hin as [-> | Hin]; [rewrite where_id_chat_self in W; discriminate |].
      rewrite perm_swap. constructor. apply IH; try assumption.
      intros y Hy. apply Same. now right.
  - intros h f f' now maxTries chatID.
    split; intros H;
      destruct (listed_id_stored f f' now maxTries chatID (run_ops h d') (id r))
        as [r' [Hr' [E _]]]; auto; exact (Gone h r' Hr' E).
Qed.

Lemma X6_deleted_record_is_gone_for_good_witness :
  let r := mkQueueRow 2 42 "call home" 200 1500 None 0 in
  let d' := snd (DeleteQueueItem NoFault (chat_id r) (id r) sample_db) in
  Permutation (queue sample_db) (r :: queue d') /\
  (forall h r', In r' (queue (run_ops h d')) -> id r' <> id r) /\
  (forall h f f' now maxTries chatID,
      ~ In (id r) (map ID (elems (DeliverableQueueItems f now maxTries (run_ops h d')))) /\
      ~ In (id r) (map ID (elems (UndeliveredQueueItems f' chatID (run_ops h d'))))).
Proof.
  apply (X6_deleted_record_is_gone_for_good sample_db
           (mkQueueRow 2 42 "call home" 200 1500 None 0)).
  - exact sample_db_wf.
  - simpl. right. left. reflexivity.
Defined.

Lemma ceiling_in_force_positive (maxTries : Z) : 0 < ceiling_in_force maxTries.
Proof.
  unfold ceiling_in_force, defaultMaxNumTries.
  destruct (maxTries <=? 0) eqn:E; [lia | apply Z.leb_gt in E; lia].
Qed.

(** X7: a reminder enqueued without a storage error gets an id above every
    stored id, leaves the stored rows in place, is at once in the pending
    listing of its destination with the values it was enqueued with, and
    is in the deliverable listing, under any ceiling, exactly from its fire
    time on. *)
Theorem X7_enqueued_record_is_listed
    (d : Database) (now chatID : Z) (msg : string) (fireOn : Time) :
  let d' := snd (Enqueue NoFault now chatID msg fireOn d) in
  let q := mkQueueItem (next_rowid d) chatID msg (time_Unix now)
                       (time_Unix (Unix fireOn)) (time_Unix 0) 0 in
  In q (elems (UndeliveredQueueItems NoFault chatID d')) /\
  (forall now' maxTries,
      In q (elems (DeliverableQueueItems NoFault now' maxTries d')) <->
      Unix fireOn <= now') /\
  (forall r, In r (queue d) -> In r (queue d') /\ id r < next_rowid d).
Proof.
  intros d' q.
  set (new := mkQueueRow (next_rowid d) chatID msg now (Unix fireOn) None 0).
  assert (Q : queue d' = queue d ++ [new])
    by (unfold d'; rewrite Enqueue_appends; reflexivity).
  assert (Hnew : In new (queue d')) by (rewrite Q; apply in_or_app; right; now left).
  split; [| split].
  - rewrite UndeliveredQueueItems_ok. simpl.
    apply (in_map scan_item _ new), order_by_desc_In, filter_In.
    split; [exact Hnew |]. apply where_undelivered_iff. now split.
  - intros now' maxTries. rewrite DeliverableQueueItems_ok. simpl. split.
    + intros H. apply in_map_iff in H. destruct H as [r0 [E H]].
      apply order_by_desc_In, filter_In in H. destruct H as [_ W].
      apply where_deliverable_iff in W. destruct W as [_ [_ W]].
      unfold q, scan_item in E. injection E as _ _ _ _ E _. lia.
    + intros H. apply (in_map scan_item _ new), order_by_desc_In, filter_In.
      split; [exact Hnew |]. apply where_deliverable_iff.
      pose proof (ceiling_in_force_positive maxTries).
      repeat split; simpl; try lia.
  - intros r Hr. split; [rewrite Q; apply in_or_app; now left |].
    now apply next_rowid_fresh.
Qed.

(** X8: once a stored record is marked delivered, neither listing shows
    it again, whatever calls follow. *)
Theorem X8_marked_record_leaves_the_listings (d : Database) (r : QueueRow) (now : Z) :
  wf d -> In r (queue d) ->
  let d' := snd (MarkQueueItemAsDelivered NoFault now (chat_id r) (id r) d) in
  forall h f f' now' maxTries chatID,
    ~ In (id r) (map ID (elems (DeliverableQueueItems f now' maxTries (run_ops h d')))) /\
    ~ In (id r) (map ID (elems (UndeliveredQueueItems f' chatID (run_ops h d')))).
Proof.
  intros Hwf Hin d' h f f' now' maxTries chatID.
  assert (Set_ : forall r', In r' (queue (run_ops h d')) -> id r' = id r ->
                            delivered_on r' <> None).
  { apply history_invariant.
    - intros f0 now0 o r0 r1 H H0.
      destruct (row_after_delivered_on _ _ _ _ _ H) as [E | [_ [_ E]]];
        rewrite E; [exact H0 | discriminate].
    - destruct Hwf as [_ Hle]. rewrite Forall_forall in Hle. apply (Hle r Hin).
    - intros x Hx Ex.
      pose proof (same_record_after NoFault now (OpMark (chat_id r) (id r)) d r x
                    Hwf Hin Hx Ex) as H.
      simpl in H. rewrite where_id_chat_self in H. injection H as <-. discriminate. }
  split; intros H;
    destruct (listed_id_stored f f' now' maxTries chatID (run_ops h d') (id r))
      as [r' [Hr' [E N]]]; auto; exact (Set_ r' Hr' E N).
Qed.

Lemma X8_marked_record_leaves_the_listings_witness :
  let r := mkQueueRow 1 42 "pay rent" 100 1000 None 0 in
  let d' := snd (MarkQueueItemAsDelivered NoFault 2000 (chat_id r) (id r) sample_db) in
  let h := [ (NoFault, 2001, OpIncrease 42 1);
             (NoFault, 2002, OpEnqueue 42 "pay rent" (time_Unix 3000)) ] in
  ~ In (id r) (map ID (elems (DeliverableQueueItems NoFault 4000 0 (run_ops h d')))) /\
  ~ In (id r) (map ID (elems (UndeliveredQueueItems NoFault 42 (run_ops h d')))).
Proof.
  apply (X8_marked_record_leaves_the_listings sample_db
           (mkQueueRow 1 42 "pay rent" 100 1000 None 0) 2000).
  - exact sample_db_wf.
  - simpl. left. reflexivity.
Defined.

(** X9: the destination, the message, the enqueue time and the fire time
    of a stored record never change, whatever calls follow; only
    [delivered_on] and [num_tries] are ever written. *)
Theorem X9_record_fields_are_immutable
    (d : Database) (r : QueueRow) (h : list (Fault * Z * Op)) (r' : QueueRow) :
  wf d -> In r (queue d) ->
  In r' (queue (run_ops h d)) -> id r' = id r ->
  chat_id r' = chat_id r /\ message r' = message r /\
  enqueued_on r' = enqueued_on r /\ fire_on r' = fire_on r.
Proof.
  intros Hwf Hin. revert r'.
  apply (history_invariant
           (fun r' => chat_id r' = chat_id r /\ message r' = message r /\
                      enqueued_on r' = enqueued_on r /\ fire_on r' = fire_on r)).
  - intros f now o r0 r1 H [H1 [H2 [H3 H4]]].
    apply row_after_same_record in H. destruct H as [_ [E1 [E2 [E3 E4]]]].
    repeat split; congruence.
  - destruct Hwf as [_ Hle]. rewrite Forall_forall in Hle. apply (Hle r Hin).
  - intros x Hx Ex. rewrite (same_id_same_row d x r Hwf Hx Hin Ex). tauto.
Qed.

Lemma X9_record_fields_are_immutable_witness :
  let r := mkQueueRow 4 7 "water plants" 400 900 None 3 in
  let h := [(NoFault, 2000, OpMark 7 4); (NoFault, 2001, OpIncrease 7 4)] in
  let r' := mkQueueRow 4 7 "water plants" 400 900 (Some 2000) 4 in
  chat_id r' = chat_id r /\ message r' = message r /\
  enqueued_on r' = enqueued_on r /\ fire_on r' = fire_on r.
Proof.
  apply (X9_record_fields_are_immutable sample_db
           (mkQueueRow 4 7 "water plants" 400 900 None 3)
           [(NoFault, 2000, OpMark 7 4); (NoFault, 2001, OpIncrease 7 4)]
           (mkQueueRow 4 7 "water plants" 400 900 (Some 2000) 4)).
  - exact sample_db_wf.
  - simpl. do 3 right. left. reflexivity.
  - simpl. do 3 right. left. reflexivity.
  - reflexivity.
Defined.

(** X10: no listing shows a record twice: the ids of the returned items
    are pairwise distinct. *)
Theorem X10_listings_have_no_duplicates
    (f f' : Fault) (now maxTries chatID : Z) (d : Database) :
  wf d ->
  NoDup (map ID (elems (DeliverableQueueItems f now maxTries d))) /\
  NoDup (map ID (elems (UndeliveredQueueItems f' chatID d))).
Proof.
  intros [Hnd _].
  assert (L : forall p,
             NoDup (map ID (map scan_item
                              (order_by_desc enqueued_on (filter p (queue d)))))).
  { intros p. rewrite map_map. simpl. eapply Permutation_NoDup.
    - apply Permutation_map, order_by_desc_perm.
    - now apply NoDup_map_filter. }
  split.
  - destruct f; try constructor. rewrite DeliverableQueueItems_ok. apply L.
  - destruct f'; try constructor. rewrite UndeliveredQueueItems_ok. apply L.
Qed.

Lemma X10_listings_have_no_duplicates_witness :
  NoDup (map ID (elems (DeliverableQueueItems NoFault 2000 0 sample_db))) /\
  NoDup (map ID (elems (UndeliveredQueueItems NoFault 42 sample_db))).
Proof.
  apply (X10_listings_have_no_duplicates NoFault NoFault 2000 0 42 sample_db).
  exact sample_db_wf.
Defined.

(** X11: every delivery candidate is a pending reminder of its own
    destination: an item of the deliverable listing is also an item of
    the pending listing for its [ChatID]. *)
Theorem X11_candidates_are_pending
    (f : Fault) (now maxTries : Z) (d : Database) (q : QueueItem) :
  In q (elems (DeliverableQueueItems f now maxTries d)) ->
  In q (elems (UndeliveredQueueItems NoFault (ChatID q) d)).
Proof.
  intros H. apply DeliverableQueueItems_In in H. destruct H as [r [Hin [W ->]]].
  rewrite UndeliveredQueueItems_ok. simpl.
  apply in_map, order_by_desc_In, filter_In. split; [exact Hin |].
  apply where_deliverable_iff in W. destruct W as [W _].
  apply where_undelivered_iff. now split.
Qed.

Lemma X11_candidates_are_pending_witness :
  In (scan_item (mkQueueRow 2 42 "call home" 200 1500 None 0))
     (elems (UndeliveredQueueItems NoFault 42 sample_db)).
Proof.
  apply (X11_candidates_are_pending NoFault 2000 3 sample_db
           (scan_item (mkQueueRow 2 42 "call home" 200 1500 None 0))).
  simpl. left. reflexivity.
Defined.

(** X12: as long as a stored record is not deleted, its [num_tries] after
    any history of calls is its earlier value plus the number of
    [IncreaseNumTries] calls on its own (destination, id) that met no
    storage error; calls for other records or destinations, failed calls
    and calls of other kinds do not count. *)
Theorem X12_tries_count_the_increments
    (h : list (Fault * Z * Op)) (d : Database) (r : QueueRow) :
  wf d -> In r (queue d) ->
  existsb (is_delete (chat_id r) (id r)) h = false ->
  exists r',
    row_of (id r) (run_ops h d) = Some r' /\
    num_tries r'
    = num_tries r + Z.of_nat (length (filter (is_increase (chat_id r) (id r)) h)).
Proof.
  revert d r. induction h as [| [[f now] o] h IH]; intros d r Hwf Hin Hdel.
  - exists r. split; [now apply row_of_In | simpl; lia].
  - cbn [existsb] in Hdel. apply orb_false_iff in Hdel. destruct Hdel as [Hd Hdel].
    destruct (row_after f now o r) as [r1 |] eqn:E;
      [| apply row_after_deleted in E; congruence].
    pose proof (row_after_same_record _ _ _ _ _ E) as [Ei [Ec _]].
    pose proof (row_after_tries _ _ _ _ _ E) as Et.
    assert (Hin1 : In r1 (queue (snd (apply_op f now o d))))
      by (apply In_queue_after; left; eauto).
    destruct (IH _ r1 (wf_apply_op f now o d Hwf) Hin1) as [r' [Hr' Hn]];
      [now rewrite Ei, Ec |].
    rewrite Ei in Hr'. rewrite Ei, Ec in Hn. exists r'. split; [exact Hr' |].
    rewrite Hn, Et. cbn [filter].
    destruct (is_increase (chat_id r) (id r) (f, now, o)); simpl length; lia.
Qed.

Lemma X12_tries_count_the_increments_witness :
  let r := mkQueueRow 1 42 "pay rent" 100 1000 None 0 in
  let h := [ (NoFault, 2000, OpIncrease 42 1); (ExecFails, 2001, OpIncrease 42 1);
             (NoFault, 2002, OpIncrease 7 1); (NoFault, 2003, OpIncrease 42 1);
             (NoFault, 2004, OpDelete 7 1) ] in
  exists r',
    row_of (id r) (run_ops h sample_db) = Some r' /\
    num_tries r'
    = num_tries r + Z.of_nat (length (filter (is_increase (chat_id r) (id r)) h)).
Proof.
  apply (X12_tries_count_the_increments
           [ (NoFault, 2000, OpIncrease 42 1); (ExecFails, 2001, OpIncrease 42 1);
             (NoFault, 2002, OpIncrease 7 1); (NoFault, 2003, OpIncrease 42 1);
             (NoFault, 2004, OpDelete 7 1) ]
           sample_db (mkQueueRow 1 42 "pay rent" 100 1000 None 0)).
  - exact sample_db_wf.
  - simpl. left. reflexivity.
  - reflexivity.
Defined.

Lemma X4_update_reports_a_match_witness :
  (fst (IncreaseNumTries NoFault 7 4 sample_db) = true <->
   exists r, In r (queue sample_db) /\ id r = 4 /\ chat_id r = 7) /\
  (fst (MarkQueueItemAsDelivered NoFault 2000 7 4 sample_db) = true <->
   exists r, In r (queue sample_db) /\ id r = 4 /\ chat_id r = 7).
Proof. exact (X4_update_reports_a_match 2000 7 4 sample_db). Defined.

Lemma X7_enqueued_record_is_listed_witness :
  let d' := snd (Enqueue NoFault 1200 42 "renew pass" (time_Unix 1300) sample_db) in
  let q := mkQueueItem (next_rowid sample_db) 42 "renew pass" (time_Unix 1200)
                       (time_Unix (Unix (time_Unix 1300))) (time_Unix 0) 0 in
  In q (elems (UndeliveredQueueItems NoFault 42 d')) /\
  (forall now' maxTries,
      In q (elems (DeliverableQueueItems NoFault now' maxTries d')) <->
      Unix (time_Unix 1300) <= now') /\
  (forall r, In r (queue sample_db) -> In r (queue d') /\ id r < next_rowid sample_db).
Proof. exact (X7_enqueued_record_is_listed sample_db 1200 42 "renew pass" (time_Unix 1300)). Defined.

(** * Further properties of the delivery loop *)

(** ** What a cycle does to the table *)








Section Candidates.
Context {World : Type} (handle : Call -> World -> bool * World).


End Candidates.








Lemma cycle_run_cycle (listed_at marked_at maxTries : Z) (tg : Z -> string -> bool)
    (d : Database) :
  cycle listed_at marked_at maxTries tg d (run_cycle listed_at marked_at maxTries tg d).
Proof.
  exists false. eexists. split; [| split].
  - exact (proj1 (run_pool_finishes outside_handle _ _)).
  - exact (proj2 (run_pool_finishes outside_handle _ _)).
  - reflexivity.
Qed.

Lemma cycles_run_cycles (maxTries : Z) (l : list (Z * Z * (Z -> string -> bool))) :
  forall d, cycles maxTries l d (run_cycles maxTries l d).
Proof.
  induction l as [| [[la ma] tg] l IH]; intros d; simpl.
  - constructor.
  - econstructor; [apply cycle_run_cycle | apply IH].
Qed.








Example sample_refusals_rows :
  queue (run_cycles 2 sample_refusals sample_db) =
  [ mkQueueRow 1 42 "pay rent" 100 1000 None 2;
    mkQueueRow 2 42 "call home" 200 1500 None 2;
    mkQueueRow 3 7 "stand-up" 300 5000 None 0;
    mkQueueRow 4 7 "water plants" 400 900 None 3;
    mkQueueRow 5 42 "buy milk" 450 950 (Some 960) 1 ].
Proof. reflexivity. Qed.


(** ** The loop and its ticks *)







Lemma finish_steps (cfg : Config Outside) :
  steps outside_handle cfg (finish cfg) /\ finished (finish cfg).
Proof.
  split.
  - destruct cfg as [ts w tr]. exact (run_pool_steps outside_handle ts [] w tr).
  - unfold finished, finish. simpl. apply Forall_forall. intros t H.
    apply in_map_iff in H. now destruct H as [_ [<- _]].
Qed.







(** Without the condition on the ticks the bound fails: at ceiling 1, two
    ticks that both come before the goroutine of the first has reached the
    store each list the reminder, and it ends with two tries. *)
Example overlapping_ticks_pass_the_ceiling :
  let d := snd (Enqueue NoFault 100 42 "pay rent" (time_Unix 1000) OpenDb) in
  let a := mkConfig [] (mkOutside d 0 (fun _ _ => false)) [] in
  let t1 := tick 1 false 2000 2000 (fun _ _ => false) a in
  let c := finish (tick 1 false 2010 2010 (fun _ _ => false) t1) in
  monitor 1 false [ (2000, 2000, fun _ _ => false); (2010, 2010, fun _ _ => false) ]
          [a; t1] a c /\
  finished c /\ ~ finished t1 /\
  queue (out_db (world c)) = [mkQueueRow 1 42 "pay rent" 100 1000 None 2].
Proof.
  intros d a t1 c. split; [| split; [| split]].
  - econstructor; [apply steps_refl |].
    econstructor; [apply steps_refl |].
    constructor. apply finish_steps.
  - apply finish_steps.
  - intros H. unfold finished in H. inversion H as [| t ts Ht _]. discriminate Ht.
  - reflexivity.
Qed.

(** * Further properties of configuration and intake *)

Lemma init_values (conf : config) :
  exists g,
    init (conf, None) = Some g /\
    _monitorIntervalSeconds g
    = (if MonitorIntervalSeconds conf <=? 0 then 10 else MonitorIntervalSeconds conf) /\
    _telegramIntervalSeconds g
    = (if TelegramIntervalSeconds conf <=? 0 then 1 else TelegramIntervalSeconds conf) /\
    _maxNumTries g = (if MaxNumTries conf <? 0 then 10 else MaxNumTries conf) /\
    _restrictUsers g = RestrictUsers conf /\
    _allowedUserIds g = AllowedUserIds conf /\
    _isVerbose g = IsVerbose conf.
Proof.
  eexists. split; [reflexivity |]. simpl.
  destruct (MonitorIntervalSeconds conf <=? 0); simpl;
    destruct (TelegramIntervalSeconds conf <=? 0); simpl;
    destruct (MaxNumTries conf <? 0); simpl; repeat split.
Qed.

(** X16: whatever the configuration file holds, when it was read without
    error [init] leaves positive polling intervals and a non-negative
    [_maxNumTries], keeps every positive configured value, and the
    deliverable listing taken with [_maxNumTries] is the one for the
    configured [max_num_tries] when that is positive and for 10 otherwise
    (a missing or zero value included). *)
Theorem X16_init_normalises_the_configuration (conf : config) :
  exists g,
    init (conf, None) = Some g /\
    0 < _monitorIntervalSeconds g /\ 0 < _telegramIntervalSeconds g /\
    0 <= _maxNumTries g /\
    _monitorIntervalSeconds g
    = (if 0 <? MonitorIntervalSeconds conf then MonitorIntervalSeconds conf else 10) /\
    _telegramIntervalSeconds g
    = (if 0 <? TelegramIntervalSeconds conf then TelegramIntervalSeconds conf else 1) /\
    (forall f now d,
        DeliverableQueueItems f now (_maxNumTries g) d
        = DeliverableQueueItems f now
            (if 0 <? MaxNumTries conf then MaxNumTries conf else 10) d).
Proof.
  destruct (init_values conf) as [g [E [Hm [Ht [Hx _]]]]].
  exists g. split; [exact E |]. rewrite Hm, Ht, Hx.
  destruct (Z.leb_spec (MonitorIntervalSeconds conf) 0);
    destruct (Z.ltb_spec 0 (MonitorIntervalSeconds conf)); try lia;
    destruct (Z.leb_spec (TelegramIntervalSeconds conf) 0);
    destruct (Z.ltb_spec 0 (TelegramIntervalSeconds conf)); try lia;
    destruct (Z.ltb_spec (MaxNumTries conf) 0);
    destruct (Z.ltb_spec 0 (MaxNumTries conf)); try lia;
    (split; [lia |]); (split; [lia |]); (split; [lia |]);
    (split; [reflexivity |]); (split; [reflexivity |]);
    intros f now d; unfold DeliverableQueueItems;
    destruct (Z.leb_spec (MaxNumTries conf) 0); try reflexivity; try lia.
Qed.

Lemma isAllowedID_range (id_ : string) (vs : list string) :
  (fix range (vs : list string) : bool :=
     match vs with
     | [] => false
     | v :: vs' => if String.eqb v id_ then true else range vs'
     end) vs = true <-> In id_ vs.
Proof.
  induction vs as [| v vs IH]; simpl; [split; [discriminate | tauto] |].
  destruct (String.eqb_spec v id_) as [-> | N].
  - tauto.
  - rewrite IH. split; [tauto | intros [E | H]; [congruence | exact H]].
Qed.

(** X17: a Telegram user name is allowed exactly when user restriction is
    off or the name is one of the configured [allowed_user_ids]; with the
    restriction on and an empty list nobody is allowed. *)
Theorem X17_isAllowedID_is_membership (g : Globals) (id_ : string) :
  (isAllowedID g id_ = true <->
   _restrictUsers g = false \/ In id_ (_allowedUserIds g)) /\
  (_restrictUsers g = true -> _allowedUserIds g = [] -> isAllowedID g id_ = false).
Proof.
  unfold isAllowedID. destruct (_restrictUsers g); simpl.
  - rewrite isAllowedID_range. split.
    + split; [tauto | intros [H | H]; [discriminate | exact H]].
    + intros _ ->. reflexivity.
  - split; [tauto | discriminate].
Qed.

Lemma format_d_injective (a b : Z) : format_d a = format_d b -> a = b.
Proof.
  unfold format_d. intros H.
  assert (N : forall n, Z.to_int n <> Decimal.Pos Decimal.Nil
                        /\ Z.to_int n <> Decimal.Neg Decimal.Nil).
  { intros [| p | p]; simpl; split; try discriminate;
      intros [= E]; now apply Unsigned.to_uint_nonnil in E. }
  apply (f_equal NilZero.int_of_string) in H.
  rewrite !NilZero.isi in H by apply N.
  injection H as H. now apply DecimalZ.to_int_inj.
Qed.

(** X18: [sessionIDFor] gives different chats different session ids: the
    id is ["ss_"] followed by the decimal chat id, and equal session ids
    come from equal chat ids. *)
Theorem X18_sessionIDFor_is_injective (a b : Z) :
  sessionIDFor a = sessionIDFor b -> a = b.
Proof.
  unfold sessionIDFor. simpl. intros [= H]. now apply format_d_injective.
Qed.

Example sessionIDFor_examples :
  sessionIDFor 42 = "ss_42" /\ sessionIDFor (-1001234) = "ss_-1001234"
  /\ sessionIDFor 0 = "ss_0".
Proof. repeat split. Qed.

Lemma X18_sessionIDFor_is_injective_witness : 42 = 42.
Proof. apply (X18_sessionIDFor_is_injective 42 42). reflexivity. Defined.

Lemma X17_isAllowedID_is_membership_witness :
  let g := mkGlobals (mk_config "" "" 10 1 10 true ["alice"; "bob"] false)
                     10 10 1 true ["alice"; "bob"] false in
  (isAllowedID g "bob" = true <->
   _restrictUsers g = false \/ In "bob" (_allowedUserIds g)) /\
  (_restrictUsers g = true -> _allowedUserIds g = [] -> isAllowedID g "bob" = false).
Proof.
  exact (X17_isAllowedID_is_membership
           (mkGlobals (mk_config "" "" 10 1 10 true ["alice"; "bob"] false)
                      10 10 1 true ["alice"; "bob"] false) "bob").
Defined.

(** X19: [processQueryResponse] changes the database only by storing one
    reminder, and only when the intent is the confirmed one, the
    parameters [message], [date] and [time] are all present, the date and
    time parse, and the parsed time is not before the clock reading; the
    stored row then carries the chat, the message and the parsed time, and
    the reply is the speech of the response. In every other case that
    returns, the database is as it was. *)
Theorem X19_intake_stores_only_confirmed_reminders_not_in_the_past
    (Confirmed : string) (Parse : iface -> iface -> option Time) (Fmt : Time -> string)
    (f : Fault) (now now_db chatID : Z) (response : QueryResponse) (d : Database)
    (reply : string) (d' : Database) :
  processQueryResponse Confirmed Parse Fmt f now now_db chatID response d
  = Some (reply, d') ->
  d' = d \/
  exists msg dt tm when_,
    Result_Metadata_IntentName response = Confirmed /\
    Result_Parameters response "message" = Some (IString msg) /\
    Result_Parameters response "date" = Some dt /\
    Result_Parameters response "time" = Some tm /\
    Parse dt tm = Some when_ /\ now <= Unix when_ /\
    reply = Result_Fulfillment_Speech response /\
    queue d' = queue d ++ [mkQueueRow (next_rowid d) chatID msg now_db (Unix when_) None 0].
Proof.
  unfold processQueryResponse.
  destruct (String.eqb_spec (Result_Metadata_IntentName response) Confirmed)
    as [Ei | _]; [| intros [= _ <-]; now left].
  destruct (Result_Parameters response "message") as [msg |] eqn:Em;
    [| intros [= _ <-]; now left].
  destruct (Result_Parameters response "date") as [dt |] eqn:Ed;
    [| intros [= _ <-]; now left].
  destruct (Result_Parameters response "time") as [tm |] eqn:Et;
    [| intros [= _ <-]; now left].
  destruct (Parse dt tm) as [when_ |] eqn:Ep; [| intros [= _ <-]; now left].
  destruct (Unix when_ >=? now) eqn:Eg; [| intros [= _ <-]; now left].
  destruct msg as [msg |]; [| discriminate].
  destruct f; try (simpl; intros [= _ <-]; now left).
  rewrite Enqueue_appends. simpl. intros [= <- <-].
  right. exists msg, dt, tm, when_.
  apply Z.geb_le in Eg. repeat split; try assumption; reflexivity.
Qed.

Lemma X19_intake_stores_only_confirmed_reminders_not_in_the_past_witness :
  let response :=
    mkQueryResponse "ok, saved" "confirmed-yes"
      (fun k => if String.eqb k "message" then Some (IString "pay rent")
                else if String.eqb k "date" then Some (IString "2030-01-02")
                else if String.eqb k "time" then Some (IString "09:00:00")
                else None) in
  let d' := snd (Enqueue NoFault 2001 42 "pay rent" (time_Unix 5000) sample_db) in
  d' = sample_db \/
  exists msg dt tm when_,
    Result_Metadata_IntentName response = "confirmed-yes" /\
    Result_Parameters response "message" = Some (IString msg) /\
    Result_Parameters response "date" = Some dt /\
    Result_Parameters response "time" = Some tm /\
    (fun _ _ => Some (time_Unix 5000)) dt tm = Some when_ /\ 2000 <= Unix when_ /\
    "ok, saved" = Result_Fulfillment_Speech response /\
    queue d' = queue sample_db
               ++ [mkQueueRow (next_rowid sample_db) 42 msg 2001 (Unix when_) None 0].
Proof.
  apply (X19_intake_stores_only_confirmed_reminders_not_in_the_past
           "confirmed-yes" (fun _ _ => Some (time_Unix 5000)) (fun _ => "past")
           NoFault 2000 2001 42).
  reflexivity.
Defined.

(** * Further properties of cancelling *)

Lemma string_of_uint_digits (u : Decimal.uint) :
  all_digits (NilEmpty.string_of_uint u) = true.
Proof. induction u; simpl; auto. Qed.

Lemma string_of_uint_empty (u : Decimal.uint) :
  NilEmpty.string_of_uint u = EmptyString -> u = Decimal.Nil.
Proof. destruct u; simpl; try discriminate; reflexivity. Qed.

Lemma digit_facts (c : ascii) :
  Nat.leb 48 (nat_of_ascii c) && Nat.leb (nat_of_ascii c) 57 = true ->
  beyond_ascii c = false /\ asciiSpace c = false /\
  Ascii.eqb c "-" = false /\ Ascii.eqb c "+" = false.
Proof.
  intros H.
  assert (M : Ascii.eqb c "-" = false)
    by (apply Ascii.eqb_neq; intros ->; vm_compute in H; discriminate).
  assert (P : Ascii.eqb c "+" = false)
    by (apply Ascii.eqb_neq; intros ->; vm_compute in H; discriminate).
  apply andb_true_iff in H. destruct H as [H1 H2].
  apply Nat.leb_le in H1. apply Nat.leb_le in H2.
  unfold beyond_ascii, asciiSpace.
  split; [| split; [| split; assumption]].
  - apply Nat.leb_gt. lia.
  - apply orb_false_iff. split.
    + apply andb_false_iff. right. apply Nat.leb_gt. lia.
    + apply Nat.eqb_neq. lia.
Qed.

Lemma digits_plain (s : string) : all_digits s = true -> plain_text s = true.
Proof.
  induction s as [| c s IH]; simpl; [reflexivity |].
  intros H. apply andb_true_iff in H. destruct H as [Hc Hs].
  destruct (digit_facts c Hc) as [-> [-> _]]. simpl. now apply IH.
Qed.

Lemma trim_start_plain (s : string) :
  plain_text s = true -> s <> EmptyString -> trim_start s = (s, at_text).
Proof.
  destruct s as [| c s]; [congruence |]. simpl. intros H _.
  apply andb_true_iff in H. destruct H as [H _].
  apply andb_true_iff in H. destruct H as [H1 H2].
  apply negb_true_iff in H1. apply negb_true_iff in H2.
  now rewrite H1, H2.
Qed.

Lemma trim_stop_plain (s : string) :
  plain_text s = true -> s <> EmptyString -> trim_stop s = (s, at_text).
Proof.
  induction s as [| c s IH]; [congruence |]. intros H _.
  simpl in H. apply andb_true_iff in H. destruct H as [H Hs].
  apply andb_true_iff in H. destruct H as [H1 H2].
  apply negb_true_iff in H1. apply negb_true_iff in H2.
  cbn [trim_stop]. destruct s as [| c' s'].
  - simpl. now rewrite H1, H2.
  - rewrite IH; [reflexivity | exact Hs | discriminate].
Qed.

Lemma format_d_cases (n : Z) :
  exists u, u <> Decimal.Nil /\
            ((0 <= n /\ Z.of_uint u = n /\ format_d n = NilEmpty.string_of_uint u) \/
             (n < 0 /\ Z.of_uint u = - n
              /\ format_d n = String "-" (NilEmpty.string_of_uint u))).
Proof.
  assert (P : forall p, Z.of_uint (Pos.to_uint p) = Z.pos p).
  { intros p. unfold Z.of_uint. now rewrite Unsigned.of_to. }
  assert (S : forall u, u <> Decimal.Nil ->
                        NilZero.string_of_uint u = NilEmpty.string_of_uint u).
  { intros u H. destruct u; try reflexivity. congruence. }
  destruct n as [| p | p]; unfold format_d; simpl.
  - exists (Decimal.D0 Decimal.Nil). split; [discriminate |]. left.
    split; [lia | split; reflexivity].
  - exists (Pos.to_uint p). split; [apply Unsigned.to_uint_nonnil |]. left.
    split; [lia | split; [apply P | apply S, Unsigned.to_uint_nonnil]].
  - exists (Pos.to_uint p). split; [apply Unsigned.to_uint_nonnil |]. right.
    split; [lia | split; [apply P |]].
    f_equal. apply S, Unsigned.to_uint_nonnil.
Qed.

Lemma format_d_plain (n : Z) : plain_text (format_d n) = true /\ format_d n <> EmptyString.
Proof.
  destruct (format_d_cases n) as [u [Hu [[_ [_ ->]] | [_ [_ ->]]]]].
  - split; [apply digits_plain, string_of_uint_digits |].
    intros E. now apply string_of_uint_empty in E.
  - split; [| discriminate].
    change (plain_text (NilEmpty.string_of_uint u) = true).
    apply digits_plain, string_of_uint_digits.
Qed.

Lemma Atoi_digits (ds : string) (u : Decimal.uint) :
  all_digits ds = true -> ds <> EmptyString ->
  NilEmpty.uint_of_string ds = Some u ->
  Atoi ds = if (- 2 ^ 63 <=? Z.of_uint u) && (Z.of_uint u <=? 2 ^ 63 - 1)
            then Some (Z.of_uint u) else None.
Proof.
  destruct ds as [| c s]; [congruence |]. intros D _ U.
  cbn [all_digits] in D. apply andb_true_iff in D. destruct D as [Dc _].
  destruct (digit_facts c Dc) as [_ [_ [M P]]].
  unfold Atoi. rewrite M, P. cbn [fst snd]. rewrite U. reflexivity.
Qed.

Lemma Atoi_minus (ds : string) (u : Decimal.uint) :
  ds <> EmptyString -> NilEmpty.uint_of_string ds = Some u ->
  Atoi (String "-" ds)
  = if (- 2 ^ 63 <=? - Z.of_uint u) && (- Z.of_uint u <=? 2 ^ 63 - 1)
    then Some (- Z.of_uint u) else None.
Proof.
  intros N U. unfold Atoi. rewrite Ascii.eqb_refl. cbn [fst snd].
  destruct ds as [| c s]; [congruence |]. rewrite U. reflexivity.
Qed.

(** [Atoi] reads back what [%d] printed, for every 64-bit integer. *)
Lemma Atoi_format_d (n : Z) :
  - 2 ^ 63 <= n <= 2 ^ 63 - 1 -> Atoi (format_d n) = Some n.
Proof.
  intros R.
  assert (In_range : (- 2 ^ 63 <=? n) && (n <=? 2 ^ 63 - 1) = true).
  { apply andb_true_iff. split; apply Z.leb_le; lia. }
  destruct (format_d_cases n) as [u [Hu [[_ [Ev ->]] | [_ [Ev ->]]]]].
  - rewrite (Atoi_digits _ u (string_of_uint_digits u)).
    + now rewrite Ev, In_range.
    + intros E. now apply string_of_uint_empty in E.
    + apply NilEmpty.usu.
  - rewrite (Atoi_minus _ u).
    + rewrite Ev. replace (- - n) with n by lia. now rewrite In_range.
    + intros E. now apply string_of_uint_empty in E.
    + apply NilEmpty.usu.
Qed.

Section CallbackProperties.
Context (TrimFunc_IsSpace TrimRightFunc_IsSpace : string -> string).

Lemma TrimSpace_plain (s : string) :
  plain_text s = true -> s <> EmptyString ->
  TrimSpace TrimFunc_IsSpace TrimRightFunc_IsSpace (String " " s) = s.
Proof.
  intros H N. unfold TrimSpace.
  assert (E : trim_start (String " " s) = (s, at_text))
    by exact (trim_start_plain s H N).
  rewrite E, (trim_stop_plain s H N). reflexivity.
Qed.

(** The id on a cancel button is read back from its callback data. *)
Lemma cancel_data_read_back (q : QueueItem) :
  - 2 ^ 63 <= ID q <= 2 ^ 63 - 1 ->
  HasPrefix (cancel_data q) commandCancel = true /\
  String.eqb (cancel_data q) commandCancel = false /\
  Atoi (TrimSpace TrimFunc_IsSpace TrimRightFunc_IsSpace
          (Replace_1 (cancel_data q) commandCancel ""))
  = Some (ID q).
Proof.
  intros R. destruct (format_d_plain (ID q)) as [P N].
  repeat split.
  change (Replace_1 (cancel_data q) commandCancel "") with (String " " (format_d (ID q))).
  rewrite (TrimSpace_plain _ P N). now apply Atoi_format_d.
Qed.

Lemma LogError_queue (f : Fault) (now : Z) (msg : string) (d : Database) :
  queue (LogError f now msg d) = queue d.
Proof. now destruct f. Qed.

Lemma deleted_not_stored (d : Database) (r x : QueueRow) :
  wf d -> In r (queue d) ->
  In x (queue (snd (DeleteQueueItem NoFault (chat_id r) (id r) d))) ->
  id x <> id r.
Proof.
  intros Hwf Hin Hx E. simpl in Hx. apply filter_In in Hx. destruct Hx as [Hx W].
  rewrite (same_id_same_row d x r Hwf Hx Hin E), where_id_chat_self in W.
  discriminate.
Qed.

(** X20: the button [processUpdate] shows for a pending reminder cancels
    that reminder: when its callback data comes back from the reminder's
    own chat and the delete meets no storage error, the user is told the
    reminder was canceled, the row is deleted, and the pending listing of
    the chat no longer shows its id, whatever Telegram answers
    afterwards. *)
Theorem X20_cancel_button_deletes_its_reminder
    (f_log : Fault) (now : Z) (api : CallbackAnswers) (d : Database) (r : QueueRow) :
  wf d -> In r (queue d) -> - 2 ^ 63 <= id r <= 2 ^ 63 - 1 ->
  let out := processCallbackQuery TrimFunc_IsSpace TrimRightFunc_IsSpace
               NoFault f_log now api (chat_id r) (cancel_data (scan_item r)) d in
  snd (fst out) = messageReminderCanceled /\
  queue (snd out) = queue (snd (DeleteQueueItem NoFault (chat_id r) (id r) d)) /\
  (forall x, In x (queue (snd out)) -> id x <> id r) /\
  (forall f', ~ In (id r) (map ID (elems (UndeliveredQueueItems f' (chat_id r) (snd out))))).
Proof.
  intros Hwf Hin R out.
  destruct (cancel_data_read_back (scan_item r) R) as [Hp [He Ha]].
  assert (Q : snd (fst out) = messageReminderCanceled /\
              queue (snd out)
              = queue (snd (DeleteQueueItem NoFault (chat_id r) (id r) d))).
  { unfold out, processCallbackQuery. rewrite Hp, He, Ha. cbn [scan_item ID].
    pose proof (DeleteQueueItem_result (chat_id r) (id r) d) as Ht.
    destruct (DeleteQueueItem NoFault (chat_id r) (id r) d) as [deleted d'].
    cbn [fst snd] in *. subst deleted.
    destruct (answered_Ok api); [destruct (edited_Ok api) |]; cbn [fst snd];
      rewrite ?LogError_queue; split; reflexivity. }
  destruct Q as [Qm Qq]. split; [exact Qm |]. split; [exact Qq |].
  assert (G : forall x, In x (queue (snd out)) -> id x <> id r).
  { intros x Hx. rewrite Qq in Hx. now apply (deleted_not_stored d r x). }
  split; [exact G |].
  intros f' H.
  destruct (listed_id_stored PrepareFails f' 0 0 (chat_id r) (snd out) (id r))
    as [x [Hx [E _]]]; [now right |].
  exact (G x Hx E).
Qed.

(** What [processCallbackQuery] answers and leaves in the table, by the
    branch its callback text takes. *)
Lemma processCallbackQuery_branches
    (f f_log : Fault) (now : Z) (api : CallbackAnswers) (chatID : Z) (txt : string)
    (d : Database) :
  let out := processCallbackQuery TrimFunc_IsSpace TrimRightFunc_IsSpace
               f f_log now api chatID txt d in
  (HasPrefix txt commandCancel = false ->
   snd (fst out) = messageError /\ queue (snd out) = queue d) /\
  (HasPrefix txt commandCancel = true -> String.eqb txt commandCancel = true ->
   snd (fst out) = messageCommandCanceled /\ queue (snd out) = queue d) /\
  (HasPrefix txt commandCancel = true -> String.eqb txt commandCancel = false ->
   Atoi (TrimSpace TrimFunc_IsSpace TrimRightFunc_IsSpace
           (Replace_1 txt commandCancel "")) = None ->
   snd (fst out) = messageError /\ queue (snd out) = queue d) /\
  (forall queueID,
      HasPrefix txt commandCancel = true -> String.eqb txt commandCancel = false ->
      Atoi (TrimSpace TrimFunc_IsSpace TrimRightFunc_IsSpace
              (Replace_1 txt commandCancel "")) = Some queueID ->
      snd (fst out)
      = (if fst (DeleteQueueItem f chatID queueID d)
         then messageReminderCanceled else messageError) /\
      queue (snd out) = queue (snd (DeleteQueueItem f chatID queueID d))).
Proof.
  intros out. unfold out, processCallbackQuery.
  split; [| split; [| split]].
  - intros ->.
    destruct (answered_Ok api); [destruct (edited_Ok api) |]; cbn [fst snd];
      rewrite ?LogError_queue; split; reflexivity.
  - intros -> ->.
    destruct (answered_Ok api); [destruct (edited_Ok api) |]; cbn [fst snd];
      rewrite ?LogError_queue; split; reflexivity.
  - intros -> -> ->.
    destruct (answered_Ok api); [destruct (edited_Ok api) |]; cbn [fst snd];
      rewrite ?LogError_queue; split; reflexivity.
  - intros queueID -> -> ->.
    destruct (DeleteQueueItem f chatID queueID d) as [deleted d'].
    destruct (answered_Ok api); [destruct (edited_Ok api) |]; cbn [fst snd];
      rewrite ?LogError_queue; split; reflexivity.
Qed.

(** X21: [processCallbackQuery] never touches a reminder of another chat,
    and what it does to the table is fixed by its callback text. A text
    that does not start with ["/cancel"] is answered with the error
    message, ["/cancel"] alone with the command-canceled message, and a
    text that starts with ["/cancel"] and goes on with something [Atoi]
    does not read, after ["/cancel"] is cut out and spaces are trimmed,
    again with the error message: all three leave the table as it was.
    When [Atoi] reads an id there, a delete without storage error is
    answered with the reminder-canceled message and leaves exactly the rows
    that do not have both that id and the chat of the query; with a storage
    error the answer is the error message and the table is as it was. In
    particular the text ["/cancel "] followed by the decimal form of a
    64-bit id deletes the rows of that id in the chat, and no other. *)
Theorem X21_callback_changes_only_its_own_chat
    (f f_log : Fault) (now : Z) (api : CallbackAnswers) (chatID : Z) (txt : string)
    (d : Database) :
  let out := processCallbackQuery TrimFunc_IsSpace TrimRightFunc_IsSpace
               f f_log now api chatID txt d in
  let read := Atoi (TrimSpace TrimFunc_IsSpace TrimRightFunc_IsSpace
                      (Replace_1 txt commandCancel "")) in
  rows_of_others chatID (snd out) = rows_of_others chatID d /\
  (HasPrefix txt commandCancel = false ->
   snd (fst out) = messageError /\ queue (snd out) = queue d) /\
  (txt = commandCancel ->
   snd (fst out) = messageCommandCanceled /\ queue (snd out) = queue d) /\
  (HasPrefix txt commandCancel = true -> txt <> commandCancel -> read = None ->
   snd (fst out) = messageError /\ queue (snd out) = queue d) /\
  (forall queueID,
      HasPrefix txt commandCancel = true -> txt <> commandCancel ->
      read = Some queueID ->
      (f = NoFault ->
       snd (fst out) = messageReminderCanceled /\
       queue (snd out)
       = filter (fun r => negb ((id r =? queueID) && (chat_id r =? chatID))) (queue d)) /\
      (f <> NoFault ->
       snd (fst out) = messageError /\ queue (snd out) = queue d)) /\
  (forall n,
      - 2 ^ 63 <= n <= 2 ^ 63 - 1 ->
      txt = (commandCancel ++ " " ++ format_d n)%string -> f = NoFault ->
      snd (fst out) = messageReminderCanceled /\
      queue (snd out)
      = filter (fun r => negb ((id r =? n) && (chat_id r =? chatID))) (queue d)).
Proof.
  intros out read.
  destruct (processCallbackQuery_branches f f_log now api chatID txt d)
    as [Bno [Balone [Bunread Bread]]].
  fold out in Bno, Balone, Bunread, Bread. fold read in Bunread, Bread.
  assert (Alone : txt = commandCancel -> HasPrefix txt commandCancel = true /\
                                         String.eqb txt commandCancel = true).
  { intros ->. split; reflexivity. }
  assert (More : txt <> commandCancel -> String.eqb txt commandCancel = false).
  { intros N. now apply String.eqb_neq. }
  assert (Deleted : forall queueID,
             HasPrefix txt commandCancel = true -> txt <> commandCancel ->
             read = Some queueID -> f = NoFault ->
             snd (fst out) = messageReminderCanceled /\
             queue (snd out)
             = filter (fun r => negb ((id r =? queueID) && (chat_id r =? chatID)))
                      (queue d)).
  { intros queueID Hp N Hr ->.
    destruct (Bread queueID Hp (More N) Hr) as [Bm Bq].
    rewrite Bm, Bq. split; reflexivity. }
  split; [| split; [| split; [| split; [| split]]]].
  - unfold rows_of_others.
    destruct (HasPrefix txt commandCancel) eqn:Hp.
    + destruct (String.eqb_spec txt commandCancel) as [Ee | Ne].
      * now rewrite (proj2 (Balone eq_refl eq_refl)).
      * destruct read as [queueID |] eqn:Hr.
        -- rewrite (proj2 (Bread queueID eq_refl eq_refl eq_refl)).
           exact (apply_op_others f now (OpDelete chatID queueID) chatID d eq_refl).
        -- now rewrite (proj2 (Bunread eq_refl eq_refl eq_refl)).
    + now rewrite (proj2 (Bno eq_refl)).
  - exact Bno.
  - intros E. destruct (Alone E) as [Hp He]. exact (Balone Hp He).
  - intros Hp N Hr. exact (Bunread Hp (More N) Hr).
  - intros queueID Hp N Hr. split; [exact (Deleted queueID Hp N Hr) |].
    intros Nf. destruct (Bread queueID Hp (More N) Hr) as [Bm Bq].
    rewrite Bm, Bq. destruct f; [congruence | |]; split; reflexivity.
  - intros n R E Ef.
    destruct (cancel_data_read_back
                (mkQueueItem n 0 "" (time_Unix 0) (time_Unix 0) (time_Unix 0) 0) R)
      as [Hp [He Ha]].
    change (cancel_data (mkQueueItem n 0 "" (time_Unix 0) (time_Unix 0) (time_Unix 0) 0))
      with (commandCancel ++ " " ++ format_d n)%string in Hp, He, Ha.
    cbn [ID] in Ha. rewrite <- E in Hp, He, Ha.
    apply (Deleted n Hp); [| exact Ha | exact Ef].
    now apply String.eqb_neq.
Qed.

End CallbackProperties.

Example Atoi_examples :
  Atoi "12" = Some 12 /\ Atoi "+7" = Some 7 /\ Atoi "-40" = Some (-40) /\
  Atoi "007" = Some 7 /\ Atoi "" = None /\ Atoi "-" = None /\ Atoi "1 2" = None /\
  Atoi "9223372036854775807" = Some 9223372036854775807 /\
  Atoi "9223372036854775808" = None /\
  Atoi "-9223372036854775808" = Some (-9223372036854775808).
Proof. vm_compute. repeat split. Qed.

Example TrimSpace_examples :
  TrimSpace (fun s => s) (fun s => s) "  12 " = "12" /\
  TrimSpace (fun s => s) (fun s => s) " a b " = "a b" /\
  TrimSpace (fun s => s) (fun s => s) "   " = "" /\
  Replace_1 "/cancel 12" "/cancel" "" = " 12" /\
  Replace_1 "x/cancel/cancel" "/cancel" "" = "x/cancel".
Proof. vm_compute. repeat split. Qed.

Example callback_examples :
  let api := mkCallbackAnswers true true "" "" in
  let run := processCallbackQuery (fun s => s) (fun s => s) NoFault NoFault 2000 api in
  cancel_data (scan_item (mkQueueRow 2 42 "call home" 200 1500 None 0)) = "/cancel 2" /\
  map id (queue (snd (run 42 "/cancel 2" sample_db))) = [1; 3; 4; 5] /\
  map id (queue (snd (run 7 "/cancel 2" sample_db))) = [1; 2; 3; 4; 5] /\
  snd (fst (run 7 "/cancel 2" sample_db)) = messageReminderCanceled /\
  snd (fst (run 42 "/cancel two" sample_db)) = messageError /\
  snd (fst (run 42 "/cancel" sample_db)) = messageCommandCanceled /\
  snd (fst (run 42 "/list" sample_db)) = messageError.
Proof. vm_compute. repeat split. Qed.

Lemma X20_cancel_button_deletes_its_reminder_witness :
  let r := mkQueueRow 2 42 "call home" 200 1500 None 0 in
  let out := processCallbackQuery (fun s => s) (fun s => s)
               NoFault NoFault 2000 (mkCallbackAnswers true false "bad request" "")
               (chat_id r) (cancel_data (scan_item r)) sample_db in
  snd (fst out) = messageReminderCanceled /\
  queue (snd out) = queue (snd (DeleteQueueItem NoFault (chat_id r) (id r) sample_db)) /\
  (forall x, In x (queue (snd out)) -> id x <> id r) /\
  (forall f', ~ In (id r) (map ID (elems (UndeliveredQueueItems f' (chat_id r) (snd out))))).
Proof.
  apply (X20_cancel_button_deletes_its_reminder (fun s => s) (fun s => s)
           NoFault 2000 (mkCallbackAnswers true false "bad request" "")
           sample_db (mkQueueRow 2 42 "call home" 200 1500 None 0)).
  - exact sample_db_wf.
  - simpl. right. left. reflexivity.
  - split; discriminate.
Defined.

Lemma X21_callback_changes_only_its_own_chat_witness :
  let out := processCallbackQuery (fun s => s) (fun s => s)
               NoFault NoFault 2000 (mkCallbackAnswers true true "" "")
               42 "/cancel 2" sample_db in
  let read := Atoi (TrimSpace (fun s => s) (fun s => s)
                      (Replace_1 "/cancel 2" commandCancel "")) in
  rows_of_others 42 (snd out) = rows_of_others 42 sample_db /\
  (HasPrefix "/cancel 2" commandCancel = false ->
   snd (fst out) = messageError /\ queue (snd out) = queue sample_db) /\
  ("/cancel 2" = commandCancel ->
   snd (fst out) = messageCommandCanceled /\ queue (snd out) = queue sample_db) /\
  (HasPrefix "/cancel 2" commandCancel = true -> "/cancel 2" <> commandCancel ->
   read = None ->
   snd (fst out) = messageError /\ queue (snd out) = queue sample_db) /\
  (forall queueID,
      HasPrefix "/cancel 2" commandCancel = true -> "/cancel 2" <> commandCancel ->
      read = Some queueID ->
      (NoFault = NoFault ->
       snd (fst out) = messageReminderCanceled /\
       queue (snd out)
       = filter (fun r => negb ((id r =? queueID) && (chat_id r =? 42)))
                (queue sample_db)) /\
      (NoFault <> NoFault ->
       snd (fst out) = messageError /\ queue (snd out) = queue sample_db)) /\
  (forall n,
      - 2 ^ 63 <= n <= 2 ^ 63 - 1 ->
      "/cancel 2" = (commandCancel ++ " " ++ format_d n)%string -> NoFault = NoFault ->
      snd (fst out) = messageReminderCanceled /\
      queue (snd out)
      = filter (fun r => negb ((id r =? n) && (chat_id r =? 42))) (queue sample_db)).
Proof.
  exact (X21_callback_changes_only_its_own_chat (fun s => s) (fun s => s)
           NoFault NoFault 2000 (mkCallbackAnswers true true "" "") 42 "/cancel 2" sample_db).
Defined.

(** The callback text ["/cancel 2"] deletes row 2 of the sample table,
    and only that row, when it comes from chat 42, whose row it is; from
    chat 7 it is answered as a success and deletes nothing. *)
Example sample_db_cancel_2 :
  let from_42 := processCallbackQuery (fun s => s) (fun s => s)
                   NoFault NoFault 2000 (mkCallbackAnswers true true "" "")
                   42 "/cancel 2" sample_db in
  let from_7 := processCallbackQuery (fun s => s) (fun s => s)
                  NoFault NoFault 2000 (mkCallbackAnswers true true "" "")
                  7 "/cancel 2" sample_db in
  map id (queue sample_db) = [1; 2; 3; 4; 5] /\
  map id (queue (snd from_42)) = [1; 3; 4; 5] /\
  snd (fst from_42) = messageReminderCanceled /\
  queue (snd from_7) = queue sample_db /\
  snd (fst from_7) = messageReminderCanceled.
Proof. vm_compute. repeat split. Qed.

Lemma X16_init_normalises_the_configuration_witness :
  exists g,
    init (mk_config "t" "a" 0 (-5) 0 false [] false, None) = Some g /\
    0 < _monitorIntervalSeconds g /\ 0 < _telegramIntervalSeconds g /\
    0 <= _maxNumTries g /\
    _monitorIntervalSeconds g = 10 /\ _telegramIntervalSeconds g = 1 /\
    (forall f now d,
        DeliverableQueueItems f now (_maxNumTries g) d
        = DeliverableQueueItems f now 10 d).
Proof. exact (X16_init_normalises_the_configuration (mk_config "t" "a" 0 (-5) 0 false [] false)). Defined.
